(** * Time-series test errors and cross-validation

    A shallow embedding of the notebook
    "Matt Solution - Notebook 3 - Time Series Test Errors and CV":
    the cell that builds the cross-validation splits ([test_index],
    [train_index]), the helper functions [get_rmse], [naive_forecast],
    [avg_forecast], [naive_seasonal_forecast], the three loops that fill
    [avg_rmses], [naive_rmses], [seasonal_naive_rmses], and the final
    [np.mean] over each of them.

    Conventions of the embedding.
    - Python integers are [Z]; [len] of a list is a [nat].
    - Python exceptions are values of [exn]; a computation that may raise
      has type [result A].
    - The notebook writes the horizon as the literal [24].  It is the
      parameter [H] here; the theorems about the splits and the loops
      suppose [1 <= H].
    - [measles_train.index] is the default integer index of the frame,
      labels [0 .. N-1], so that a label is also a row position.
    - The columns hold float64 numbers.  numpy and pandas numbers are kept
      behind the interface [Arith], with two instances.  [Binary64] is the
      arithmetic of the code: IEEE binary64 (Rocq's primitive floats), each
      operation rounded, with overflow, underflow, infinities and NaN.
      [Exact] is the arithmetic of the formulas: real numbers, extended with
      NaN; a statement made at this instance says so, and is a statement
      about the formula that the code evaluates, not about float64.
    - A sum of floats is taken from left to right.  numpy adds fewer than
      eight numbers in that order, and eight or more pairwise; the binary64
      statements below are about sums that do not depend on the order (all
      the terms are zero), or about fewer than eight terms. *)

From Stdlib Require Import ZArith List Bool Lia Sorted.
From Stdlib Require Import Reals Lra.
From Stdlib Require Uint63.
From Stdlib Require Import Floats.
Import ListNotations.

Set Implicit Arguments.

(** ** Python primitives *)

Module Py.

Inductive exn : Set := IndexError | ValueError.

Inductive result (A : Type) : Type :=
| Ok (a : A)
| Raise (e : exn).
Arguments Ok {A} a.
Arguments Raise {A} e.

Definition bind {A B} (c : result A) (k : A -> result B) : result B :=
  match c with
  | Ok a => k a
  | Raise e => Raise e
  end.

(** [range(a, b)]. *)
Definition range (a b : Z) : list Z :=
  map (fun k => (a + Z.of_nat k)%Z) (seq 0 (Z.to_nat (b - a))).

(** How a slice bound [i] is adjusted to a sequence of length [len]:
    a negative bound counts from the end, and both ends are clipped. *)
Definition adjust (len i : Z) : Z :=
  if (i <? 0)%Z then Z.max (i + len) 0 else Z.min i len.

(** [l[start:stop]], a bound left out being [None]. *)
Definition slice {A} (l : list A) (start stop : option Z) : list A :=
  let len := Z.of_nat (length l) in
  let lo := match start with Some i => adjust len i | None => 0%Z end in
  let hi := match stop with Some i => adjust len i | None => len end in
  firstn (Z.to_nat (hi - lo)) (skipn (Z.to_nat lo) l).

(** [l[i]]: raises [IndexError] out of range. *)
Definition item {A} (l : list A) (i : Z) : result A :=
  let len := Z.of_nat (length l) in
  let j := if (i <? 0)%Z then (i + len)%Z else i in
  if (j <? 0)%Z then Raise IndexError
  else match nth_error l (Z.to_nat j) with
       | Some x => Ok x
       | None => Raise IndexError
       end.

(** [int(n / h)] for integers [n], [h] with [h <> 0]: the quotient
    truncated towards zero (the float division is exact enough below 2^53).
    At [h = 0] Python raises [ZeroDivisionError]; this function is only used
    with the horizon as [h], and the theorems about the cell and the loops
    suppose [0 < h]. *)
Definition int_div (n h : Z) : Z := Z.quot n h.

End Py.
Import Py.

Notation "x <- c ;; k" := (bind c (fun x => k))
  (at level 61, c at next level, right associativity).

(** ** The cross-validation splits *)

(** [measles_train.index] for a frame of [N] rows. *)
Definition index (N : nat) : list nat := seq 0 N.

(** The two lists the cell appends to. *)
Record cv_lists : Type := {
  test_index : list (list nat);
  train_index : list (list nat)
}.

(** The body of the loop, for one value of [i]: the value given to [test],
    the value given to [train], and the two [append]s. *)
Definition cv_test (H : Z) (idx : list nat) (i : Z) : list nat :=
  if (1 <? i)%Z
  then slice idx (Some (- H * i)%Z) (Some (- H * (i - 1))%Z)
  else slice idx (Some (- H)%Z) None.

Definition cv_train (H : Z) (idx : list nat) (i : Z) : list nat :=
  slice idx None (Some (- H * i)%Z).

Definition cv_body (H : Z) (idx : list nat) (st : cv_lists) (i : Z) : cv_lists :=
  {| test_index := test_index st ++ [cv_test H idx i];
     train_index := train_index st ++ [cv_train H idx i] |}.

(** The whole cell, for a frame of [N] rows. *)
Definition cv_splits (H : Z) (N : nat) : cv_lists :=
  fold_left (cv_body H (index N))
            (range 1 (int_div (Z.of_nat N) H))
            {| test_index := []; train_index := [] |}.

(** [zip(train_index, test_index)]. *)
Definition splits (H : Z) (N : nat) : list (list nat * list nat) :=
  combine (train_index (cv_splits H N)) (test_index (cv_splits H N)).

(** The half-open range of positions [[lo, hi)]. *)
Definition window (lo hi : Z) : list nat :=
  seq (Z.to_nat lo) (Z.to_nat (hi - lo)).

(** ** Numbers

    The operations of numpy and pandas that the notebook uses on numbers.
    [of_len] converts a length to a number; [isnan] is the test behind
    pandas' [skipna]. *)

Class Arith (V : Type) : Type := {
  fzero : V;
  fone : V;
  fadd : V -> V -> V;
  fsub : V -> V -> V;
  fmul : V -> V -> V;
  fdiv : V -> V -> V;
  fsqrt : V -> V;
  of_len : nat -> V;
  isnan : V -> bool
}.

(** Binary64, the numbers of numpy's [float64]. *)
#[export] Instance Binary64 : Arith PrimFloat.float := {|
  fzero := 0%float;
  fone := 1%float;
  fadd := PrimFloat.add;
  fsub := PrimFloat.sub;
  fmul := PrimFloat.mul;
  fdiv := PrimFloat.div;
  fsqrt := PrimFloat.sqrt;
  of_len := fun n => PrimFloat.of_uint63 (Uint63.of_Z (Z.of_nat n));
  isnan := PrimFloat.is_nan
|}.

(** Exact arithmetic: a real number, or NaN.  No rounding and no overflow.
    There is no infinity: the only division by zero that the notebook can
    perform divides the sum of an empty sequence, which is zero, by its
    length, and [0 / 0] is NaN. *)
Inductive xreal : Type :=
| Fin (r : R)
| NaN.

Definition xlift2 (f : R -> R -> R) (x y : xreal) : xreal :=
  match x, y with
  | Fin a, Fin b => Fin (f a b)
  | _, _ => NaN
  end.

Definition xdiv (x y : xreal) : xreal :=
  match x, y with
  | Fin a, Fin b => if Req_dec_T b 0 then NaN else Fin (a / b)
  | _, _ => NaN
  end.

Definition xsqrt (x : xreal) : xreal :=
  match x with
  | Fin a => if Rlt_dec a 0 then NaN else Fin (R_sqrt.sqrt a)
  | NaN => NaN
  end.

Definition xisnan (x : xreal) : bool :=
  match x with
  | Fin _ => false
  | NaN => true
  end.

#[export] Instance Exact : Arith xreal := {|
  fzero := Fin 0;
  fone := Fin 1;
  fadd := xlift2 Rplus;
  fsub := xlift2 Rminus;
  fmul := xlift2 Rmult;
  fdiv := xdiv;
  fsqrt := xsqrt;
  of_len := fun n => Fin (INR n);
  isnan := xisnan
|}.

(** ** The notebook's functions and loops *)

Section Notebook.

Context {V : Type} {AV : Arith V}.

(** [np.sum]: the elements added up from zero, left to right.  numpy adds
    an array of eight elements or more pairwise instead; the order is
    immaterial in exact arithmetic and for terms that are all zero, and no
    statement below gives the binary64 value of any other sum of eight terms
    or more. *)
Definition np_sum (l : list V) : V := fold_left fadd l fzero.

(** [np.mean] of a list: the sum over the length. *)
Definition np_mean (l : list V) : V :=
  fdiv (np_sum l) (of_len (length l)).

(** [Series.mean()]: pandas leaves the NaN entries out of both the sum
    and the count. *)
Definition pd_mean (l : list V) : V :=
  let xs := filter (fun x => negb (isnan x)) l in
  fdiv (np_sum xs) (of_len (length xs)).

(** [np.ones(n)] and [x * array]. *)
Definition np_ones (n : nat) : list V := repeat fone n.

Definition scale (x : V) (a : list V) : list V := map (fmul x) a.

(** [frame.iloc[rows,].cases]: the frame is kept as its [cases] column;
    a position outside the frame raises [IndexError]. *)
Fixpoint iloc (frame : list V) (rows : list nat) : result (list V) :=
  match rows with
  | [] => Ok []
  | r :: rows' =>
      match nth_error frame r with
      | Some x => xs <- iloc frame rows' ;; Ok (x :: xs)
      | None => Raise IndexError
      end
  end.

(** [np.sum] of a pandas column: the NaN entries are left out, as in
    [Series.mean()]. *)
Definition pd_sum (l : list V) : V :=
  np_sum (filter (fun x => negb (isnan x)) l).

(** [pred - actual], where [actual] is a column of the frame and [pred] an
    array or a list: elementwise when the lengths agree; a [pred] of a
    single value is subtracted from every entry of [actual] (broadcast); any
    other pair of lengths raises [ValueError], also a longer [pred] against
    a column of one row, since the result is given the index of [actual]. *)
Definition residuals (pred actual : list V) : result (list V) :=
  if Nat.eqb (length pred) (length actual) then
    Ok (map (fun pa => fsub (fst pa) (snd pa)) (combine pred actual))
  else
    match pred with
    | [p] => Ok (map (fun a => fsub p a) actual)
    | _ => Raise ValueError
    end.

(** [get_rmse(pred, actual)]: [res = pred - actual] is a pandas column, so
    [np.sum] of its squares leaves the NaN entries out, while [len(res)]
    counts them. *)
Definition get_rmse (pred actual : list V) : result V :=
  res <- residuals pred actual ;;
  Ok (fsqrt (fdiv (pd_sum (map (fun r => fmul r r) res))
                  (of_len (length res)))).

(** [naive_forecast(train, test)]:
    [list(train.cases)[-1]*np.ones(len(test))]. *)
Definition naive_forecast (train test : list V) : result (list V) :=
  x <- item train (-1) ;;
  Ok (scale x (np_ones (length test))).

(** [avg_forecast(train, test)]:
    [train.cases.mean()*np.ones(len(test))]. *)
Definition avg_forecast (train test : list V) : result (list V) :=
  Ok (scale (pd_mean train) (np_ones (length test))).

(** [naive_seasonal_forecast(train, test)]:
    [list(train.cases)[-len(test):]]. *)
Definition naive_seasonal_forecast (train test : list V) : result (list V) :=
  Ok (slice train (Some (- Z.of_nat (length test))%Z) None).

(** One turn of a loop [for i,j in zip(train_index,test_index)], for the
    forecaster [forecast]: the error of the split, then its [append] to
    the list of errors. *)
Definition split_rmse (forecast : list V -> list V -> result (list V))
    (frame : list V) (ij : list nat * list nat) : result V :=
  train <- iloc frame (fst ij) ;;
  test <- iloc frame (snd ij) ;;
  pred <- forecast train test ;;
  get_rmse pred test.

Definition rmse_body (forecast : list V -> list V -> result (list V))
    (frame : list V) (acc : result (list V)) (ij : list nat * list nat)
    : result (list V) :=
  rmses <- acc ;;
  e <- split_rmse forecast frame ij ;;
  Ok (rmses ++ [e]).

Definition cv_rmses (forecast : list V -> list V -> result (list V))
    (H : Z) (frame : list V) : result (list V) :=
  fold_left (rmse_body forecast frame) (splits H (length frame)) (Ok []).

(** The three loops of the notebook. *)
Definition avg_rmses := cv_rmses avg_forecast.
Definition naive_rmses := cv_rmses naive_forecast.
Definition seasonal_naive_rmses := cv_rmses naive_seasonal_forecast.

(** A loop followed by [np.mean] of its list, as in the last cell: the
    errors of the splits and their mean. *)
Definition evaluate (forecast : list V -> list V -> result (list V))
    (H : Z) (frame : list V) : result (list V * V) :=
  rmses <- cv_rmses forecast H frame ;;
  Ok (rmses, np_mean rmses).

End Notebook.

(** The binary64 number nearest to one tenth, which Python prints [0.1]. *)
Definition tenth : float := 0x1.999999999999ap-4%float.

(** ** Notions the statements use

    The sum of a list of reals, and the arithmetic mean of a list of
    reals, as mathematics has them; the code's [np_sum], [np_mean] and
    [pd_mean] are compared with these. *)

Definition Rsum (l : list R) : R := fold_right Rplus 0%R l.

Definition arithmetic_mean (l : list R) : R := (Rsum l / INR (length l))%R.

(** The rows of a frame that the training and the test window of split
    number [k] select. *)
Definition train_rows {V : Type} (H : Z) (frame : list V) (k : nat) : list V :=
  firstn (Z.to_nat (Z.of_nat (length frame) - H * (Z.of_nat k + 1))) frame.

Definition test_rows {V : Type} (H : Z) (frame : list V) (k : nat) : list V :=
  firstn (Z.to_nat H)
         (skipn (Z.to_nat (Z.of_nat (length frame) - H * (Z.of_nat k + 1))) frame).

(** The squares of the residuals [pred - actual], as [get_rmse] forms
    them, over the reals. *)
Definition sq_residuals (pred actual : list R) : list R :=
  map (fun pa => (fst pa - snd pa) * (fst pa - snd pa))%R (combine pred actual).


(** A forecaster that, on a series constantly [x], forecasts [h <= a]
    values [x] from a window of [a] values. *)
Definition keeps_constant {V : Type} (x : V)
    (forecast : list V -> list V -> result (list V)) : Prop :=
  forall a h, (1 <= h <= a)%nat ->
    forecast (repeat x a) (repeat x h) = Ok (repeat x h).

(** A forecaster that, from a training window at least as long as the test
    window, returns as many values as the test window has rows. *)
Definition fits_test {V : Type}
    (forecast : list V -> list V -> result (list V)) : Prop :=
  forall train test, (1 <= length test <= length train)%nat ->
    exists pred, forecast train test = Ok pred /\ length pred = length test.

(** A loop that goes through every split without raising: it returns one
    error for each split, the error of split [k] being [get_rmse] of the
    forecast made from the rows of its training window against the rows of
    its test window, and then the mean of these errors. *)
Definition runs_all_splits {V : Type} {AV : Arith V}
    (forecast : list V -> list V -> result (list V))
    (H : Z) (frame : list V) : Prop :=
  exists errs,
    evaluate forecast H frame = Ok (errs, np_mean errs) /\
    length errs = length (splits H (length frame)) /\
    forall k d, (k < length errs)%nat ->
      exists pred,
        forecast (train_rows H frame k) (test_rows H frame k) = Ok pred /\
        get_rmse pred (test_rows H frame k) = Ok (nth k errs d).

(** ** Frames with their index, and the two train-test splits

    The cells that split [marathon] and [measles] into a training and a
    test frame work on the row labels.  A frame is kept here as the list of
    its rows, each with its label; [pd.read_csv] numbers the rows from 0. *)

Definition read_csv {A : Type} (rows : list A) : list (nat * A) :=
  combine (seq 0 (length rows)) rows.

(** [frame.index] and the values of the rows. *)
Definition labels {A : Type} (f : list (nat * A)) : list nat := map fst f.

Definition column {A : Type} (f : list (nat * A)) : list A := map snd f.

Definition mem_label (l : nat) (ls : list nat) : bool := existsb (Nat.eqb l) ls.

(** [frame.drop(ls)]: the rows whose label is not among [ls]; pandas
    raises [KeyError] when one of [ls] is not a label of the frame, which is
    [None] here. *)
Definition drop {A : Type} (f : list (nat * A)) (ls : list nat)
    : option (list (nat * A)) :=
  if forallb (fun l => mem_label l (labels f)) ls
  then Some (filter (fun row => negb (mem_label (fst row) ls)) f)
  else None.

(** The marathon cell, its literal [5] being the parameter [T]:
    [marathon_train = marathon_copy.iloc[:-T,]] and
    [marathon_test = marathon_copy.drop(marathon_train.index)]. *)
Definition holdout_split {A : Type} (T : Z) (marathon : list (nat * A))
    : option (list (nat * A) * list (nat * A)) :=
  let marathon_train := slice marathon None (Some (- T)%Z) in
  match drop marathon (labels marathon_train) with
  | Some marathon_test => Some (marathon_train, marathon_test)
  | None => None
  end.

(** The measles cells.  A row is a month and a number of cases; a month
    is an integer (a date on some calendar scale), and the two dates of the
    notebook are the parameters [d1963] and [d1961]:
    [measles.loc[measles.month < d1963,]], then
    [measles_copy.loc[measles_copy.month < d1961,]] and
    [measles_copy.drop(measles_train.index)]. *)
Definition loc_before {A : Type} (d : Z) (f : list (nat * (Z * A)))
    : list (nat * (Z * A)) :=
  filter (fun row => (fst (snd row) <? d)%Z) f.

Definition measles_split {A : Type} (d1963 d1961 : Z)
    (measles : list (nat * (Z * A)))
    : option (list (nat * (Z * A)) * list (nat * (Z * A))) :=
  let measles_pre1963 := loc_before d1963 measles in
  let measles_train := loc_before d1961 measles_pre1963 in
  match drop measles_pre1963 (labels measles_train) with
  | Some measle_test => Some (measles_train, measle_test)
  | None => None
  end.

Section Holdout.

Context {V : Type} {AV : Arith V}.

(** [np.sqrt(np.sum(np.power(test - pred,2))/len(test))], for a number
    [pred] and the column [test]. *)
Definition holdout_rmse (pred : V) (test : list V) : V :=
  fsqrt (fdiv (pd_sum (map (fun r => fmul r r)
                           (map (fun y => fsub y pred) test)))
              (of_len (length test))).

(** The cell of the average method:
    [pred_avg = marathon_train.time.mean()], then the RMSE. *)
Definition avg_method_rmse (train test : list V) : V :=
  holdout_rmse (pd_mean train) test.

(** The cell of the naive method:
    [pred_naive = marathon_train.time.iloc[-1]], then the RMSE. *)
Definition naive_method_rmse (train test : list V) : result V :=
  pred_naive <- item train (-1) ;;
  Ok (holdout_rmse pred_naive test).

End Holdout.

(** ** Facts about slices and ranges *)

Lemma firstn_seq_le (n a len : nat) :
  (n <= len)%nat -> firstn n (seq a len) = seq a n.
Proof.
  revert a len; induction n as [|n IH]; intros a len Hle; [reflexivity|].
  destruct len as [|len]; [lia|].
  simpl. f_equal. apply IH. lia.
Qed.

Lemma firstn_skipn_index (N : nat) (lo hi : Z) :
  (0 <= lo <= hi)%Z -> (hi <= Z.of_nat N)%Z ->
  firstn (Z.to_nat (hi - lo)) (skipn (Z.to_nat lo) (index N)) = window lo hi.
Proof.
  intros Hlo Hhi. unfold index, window.
  rewrite skipn_seq. simpl. apply firstn_seq_le. lia.
Qed.

Lemma length_index (N : nat) : length (index N) = N.
Proof. apply length_seq. Qed.

Lemma slice_index_prefix (N : nat) (b : Z) :
  (0 < b <= Z.of_nat N)%Z ->
  slice (index N) None (Some (- b)%Z) = window 0 (Z.of_nat N - b).
Proof.
  intros Hb. unfold slice, adjust. rewrite length_index.
  destruct (Z.ltb_spec (- b) 0); [|lia].
  rewrite Z.max_l by lia.
  rewrite <- (firstn_skipn_index N) by lia.
  do 2 f_equal; lia.
Qed.

Lemma slice_index_suffix (N : nat) (b : Z) :
  (0 < b <= Z.of_nat N)%Z ->
  slice (index N) (Some (- b)%Z) None = window (Z.of_nat N - b) (Z.of_nat N).
Proof.
  intros Hb. unfold slice, adjust. rewrite length_index.
  destruct (Z.ltb_spec (- b) 0); [|lia].
  rewrite Z.max_l by lia.
  rewrite <- (firstn_skipn_index N) by lia.
  do 2 f_equal; lia.
Qed.

Lemma slice_index_middle (N : nat) (a b : Z) :
  (0 < b <= a)%Z -> (a <= Z.of_nat N)%Z ->
  slice (index N) (Some (- a)%Z) (Some (- b)%Z)
  = window (Z.of_nat N - a) (Z.of_nat N - b).
Proof.
  intros Hb Ha. unfold slice, adjust. rewrite length_index.
  destruct (Z.ltb_spec (- a) 0); [|lia].
  destruct (Z.ltb_spec (- b) 0); [|lia].
  rewrite !Z.max_l by lia.
  rewrite <- (firstn_skipn_index N) by lia.
  do 2 f_equal; lia.
Qed.

Lemma length_range (a b : Z) : length (range a b) = Z.to_nat (b - a).
Proof. unfold range. now rewrite length_map, length_seq. Qed.

Lemma nth_range (a b : Z) (k : nat) (d : Z) :
  (k < Z.to_nat (b - a))%nat -> nth k (range a b) d = (a + Z.of_nat k)%Z.
Proof.
  intros Hk. unfold range.
  rewrite (nth_indep _ d (a + Z.of_nat 0)%Z) by now rewrite length_map, length_seq.
  rewrite (map_nth (fun k => (a + Z.of_nat k)%Z)), seq_nth by assumption.
  reflexivity.
Qed.

(** ** The loop as two maps *)

Lemma cv_fold (H : Z) (idx : list nat) (l : list Z) (st : cv_lists) :
  fold_left (cv_body H idx) l st
  = {| test_index := test_index st ++ map (cv_test H idx) l;
       train_index := train_index st ++ map (cv_train H idx) l |}.
Proof.
  revert st; induction l as [|i l IH]; intros st; simpl.
  - rewrite !app_nil_r. now destruct st.
  - rewrite IH. simpl. now rewrite <- !app_assoc.
Qed.

Lemma test_index_map (H : Z) (N : nat) :
  test_index (cv_splits H N)
  = map (cv_test H (index N)) (range 1 (int_div (Z.of_nat N) H)).
Proof. unfold cv_splits. now rewrite cv_fold. Qed.

Lemma train_index_map (H : Z) (N : nat) :
  train_index (cv_splits H N)
  = map (cv_train H (index N)) (range 1 (int_div (Z.of_nat N) H)).
Proof. unfold cv_splits. now rewrite cv_fold. Qed.

Lemma int_div_floor (n h : Z) :
  (0 <= n)%Z -> (0 < h)%Z -> int_div n h = (n / h)%Z.
Proof. intros Hn Hh. unfold int_div. now apply Z.quot_div_nonneg. Qed.

Lemma length_train_index (H : Z) (N : nat) :
  (0 < H)%Z ->
  length (train_index (cv_splits H N)) = Z.to_nat (Z.of_nat N / H - 1).
Proof.
  intros HH. rewrite train_index_map, length_map, length_range.
  now rewrite int_div_floor by lia.
Qed.

Lemma length_test_index (H : Z) (N : nat) :
  (0 < H)%Z ->
  length (test_index (cv_splits H N)) = Z.to_nat (Z.of_nat N / H - 1).
Proof.
  intros HH. rewrite test_index_map, length_map, length_range.
  now rewrite int_div_floor by lia.
Qed.

Lemma length_splits (H : Z) (N : nat) :
  (0 < H)%Z -> length (splits H N) = Z.to_nat (Z.of_nat N / H - 1).
Proof.
  intros HH. unfold splits.
  rewrite length_combine, length_train_index, length_test_index by assumption.
  apply Nat.min_id.
Qed.

(** A loop index [i] of the cell leaves room for [i] blocks of [H] rows and
    one more block before them. *)
Lemma loop_index_bound (H : Z) (N : nat) (i : Z) :
  (0 < H)%Z -> (1 <= i < Z.of_nat N / H)%Z ->
  (H * (i + 1) + Z.of_nat N mod H <= Z.of_nat N)%Z.
Proof.
  intros HH Hi.
  pose proof (Z.div_mod (Z.of_nat N) H ltac:(lia)) as E.
  pose proof (Z.mod_pos_bound (Z.of_nat N) H HH).
  nia.
Qed.

Lemma cv_train_window (H : Z) (N : nat) (i : Z) :
  (0 < H)%Z -> (1 <= i < Z.of_nat N / H)%Z ->
  cv_train H (index N) i = window 0 (Z.of_nat N - H * i).
Proof.
  intros HH Hi. pose proof (loop_index_bound N HH Hi).
  pose proof (Z.mod_pos_bound (Z.of_nat N) H HH).
  unfold cv_train.
  replace (- H * i)%Z with (- (H * i))%Z by lia.
  apply slice_index_prefix. nia.
Qed.

Lemma cv_test_window (H : Z) (N : nat) (i : Z) :
  (0 < H)%Z -> (1 <= i < Z.of_nat N / H)%Z ->
  cv_test H (index N) i = window (Z.of_nat N - H * i) (Z.of_nat N - H * (i - 1)).
Proof.
  intros HH Hi. pose proof (loop_index_bound N HH Hi).
  pose proof (Z.mod_pos_bound (Z.of_nat N) H HH).
  unfold cv_test. destruct (Z.ltb_spec 1 i).
  - replace (- H * i)%Z with (- (H * i))%Z by lia.
    replace (- H * (i - 1))%Z with (- (H * (i - 1)))%Z by lia.
    apply slice_index_middle; nia.
  - assert (i = 1%Z) as -> by lia.
    rewrite slice_index_suffix by nia.
    f_equal; lia.
Qed.

Lemma nth_split (H : Z) (N k : nat) :
  (0 < H)%Z -> (k < length (splits H N))%nat ->
  nth k (splits H N) ([], [])
  = (window 0 (Z.of_nat N - H * (Z.of_nat k + 1)),
     window (Z.of_nat N - H * (Z.of_nat k + 1)) (Z.of_nat N - H * Z.of_nat k)).
Proof.
  intros HH Hk. rewrite length_splits in Hk by assumption.
  unfold splits. rewrite combine_nth
    by now rewrite length_train_index, length_test_index.
  rewrite train_index_map, test_index_map, int_div_floor by lia.
  rewrite (nth_indep _ [] (cv_train H (index N) 0))
    by (rewrite length_map, length_range; lia).
  rewrite (nth_indep (map (cv_test _ _) _) [] (cv_test H (index N) 0))
    by (rewrite length_map, length_range; lia).
  rewrite !map_nth, !(nth_range _ _ 0%Z) by lia.
  rewrite cv_train_window, cv_test_window by lia.
  f_equal; f_equal; lia.
Qed.

(** ** The windows of the splits *)

Lemma length_window (lo hi : Z) : length (window lo hi) = Z.to_nat (hi - lo).
Proof. apply length_seq. Qed.

Lemma in_window (lo hi : Z) (p : nat) :
  (0 <= lo)%Z -> In p (window lo hi) <-> (lo <= Z.of_nat p < hi)%Z.
Proof. intros Hlo. unfold window. rewrite in_seq. lia. Qed.

Lemma window_app (a b c : Z) :
  (0 <= a <= b)%Z -> (b <= c)%Z -> window a b ++ window b c = window a c.
Proof.
  intros Hab Hbc. unfold window.
  replace (Z.to_nat b) with (Z.to_nat a + Z.to_nat (b - a))%nat by lia.
  rewrite <- seq_app. f_equal. lia.
Qed.

(** The number of splits, and the bound it puts on a split number [k]. *)
Lemma split_number_bound (H : Z) (N k : nat) :
  (0 < H)%Z -> (k < length (splits H N))%nat ->
  (H * (Z.of_nat k + 2) + Z.of_nat N mod H <= Z.of_nat N)%Z.
Proof.
  intros HH Hk. rewrite length_splits in Hk by assumption.
  pose proof (@loop_index_bound H N (Z.of_nat k + 1) HH ltac:(lia)).
  lia.
Qed.

(** C1. For [1 <= H < N], split number [k] of the cell has the training
    window [[0, N - H*(k+1))] and the test window
    [[N - H*(k+1), N - H*k)]: the test window has exactly [H] positions and
    starts where the training window ends. *)
Theorem C1_split_windows (N : nat) (H : Z) (k : nat) :
  (1 <= H < Z.of_nat N)%Z ->
  (k < length (splits H N))%nat ->
  (0 <= Z.of_nat N - H * (Z.of_nat k + 1))%Z /\
  nth k (splits H N) ([], [])
  = (window 0 (Z.of_nat N - H * (Z.of_nat k + 1)),
     window (Z.of_nat N - H * (Z.of_nat k + 1)) (Z.of_nat N - H * Z.of_nat k)) /\
  Z.of_nat (length (snd (nth k (splits H N) ([], [])))) = H /\
  fst (nth k (splits H N) ([], [])) ++ snd (nth k (splits H N) ([], []))
  = window 0 (Z.of_nat N - H * Z.of_nat k).
Proof.
  intros HH Hk.
  pose proof (@split_number_bound H N k ltac:(lia) Hk) as Hb.
  pose proof (Z.mod_pos_bound (Z.of_nat N) H ltac:(lia)) as Hm.
  rewrite nth_split by lia. simpl fst; simpl snd.
  repeat split.
  - lia.
  - rewrite length_window. lia.
  - apply window_app; lia.
Qed.

Lemma C1_split_windows_witness :
  nth 1 (splits 2 7) ([], []) = ([0; 1; 2], [3; 4])%nat.
Proof.
  pose proof (@C1_split_windows 7 2 1 ltac:(lia) ltac:(vm_compute; lia)) as (_ & E & _).
  rewrite E. reflexivity.
Defined.

(** C2. For [1 <= H < N] the cell produces [floor(N / H) - 1] splits, and
    none at all (the two lists stay empty, nothing is raised) when
    [N < 2 * H]. *)
Theorem C2_split_count (N : nat) (H : Z) :
  (1 <= H < Z.of_nat N)%Z ->
  Z.of_nat (length (splits H N)) = (Z.of_nat N / H - 1)%Z /\
  Z.of_nat (length (train_index (cv_splits H N))) = (Z.of_nat N / H - 1)%Z /\
  Z.of_nat (length (test_index (cv_splits H N))) = (Z.of_nat N / H - 1)%Z /\
  ((Z.of_nat N < 2 * H)%Z ->
   cv_splits H N = {| test_index := []; train_index := [] |} /\
   splits H N = []).
Proof.
  intros HH.
  assert (1 <= Z.of_nat N / H)%Z as Hq
    by (apply Z.div_le_lower_bound; lia).
  rewrite length_splits, length_train_index, length_test_index by lia.
  repeat split; try lia.
  - assert (Z.of_nat N / H < 2)%Z by (apply Z.div_lt_upper_bound; lia).
    unfold cv_splits. rewrite int_div_floor by lia.
    replace (Z.of_nat N / H)%Z with 1%Z by lia. reflexivity.
  - assert (Z.of_nat N / H < 2)%Z by (apply Z.div_lt_upper_bound; lia).
    unfold splits, cv_splits. rewrite int_div_floor by lia.
    replace (Z.of_nat N / H)%Z with 1%Z by lia. reflexivity.
Qed.

Lemma C2_split_count_witness :
  Z.of_nat (length (splits 24 100)) = 3%Z /\ splits 4 7 = [].
Proof.
  split.
  - rewrite (proj1 (@C2_split_count 100 24 ltac:(lia))). reflexivity.
  - apply (@C2_split_count 7 4 ltac:(lia)). lia.
Defined.

(** C6, as the specification states it, fails: with [N = 5] and [H = 2]
    one row is left over ([5 mod 2 = 1]), the only split trains on the
    positions [0, 1, 2], and position [0], the leftover row, is among
    them. *)
Lemma C6_counterexample :
  (1 <= 2 < Z.of_nat 5)%Z /\ (Z.of_nat 5 mod 2 <> 0)%Z /\
  splits 2 5 = [([0; 1; 2], [3; 4])]%nat /\
  (Z.of_nat 0 < Z.of_nat 5 mod 2)%Z /\
  In 0%nat (fst (nth 0 (splits 2 5) ([], []))).
Proof.
  split; [lia|]. split; [vm_compute; discriminate|].
  split; [reflexivity|]. split; [reflexivity|].
  vm_compute. now left.
Qed.

(** C6, amended. When [N mod H <> 0] the leftover rows, the positions
    below [N mod H], belong to the training window of every split (each
    training window starts at position [0]) and to the test window of no
    split. *)
Theorem C6_leftover_in_every_train (N : nat) (H : Z) (k p : nat) :
  (1 <= H < Z.of_nat N)%Z ->
  (k < length (splits H N))%nat ->
  (Z.of_nat p < Z.of_nat N mod H)%Z ->
  In p (fst (nth k (splits H N) ([], []))) /\
  forall j, ~ In p (snd (nth j (splits H N) ([], []))).
Proof.
  intros HH Hk Hp. split.
  - pose proof (@split_number_bound H N k ltac:(lia) Hk) as Hb.
    rewrite nth_split by lia. simpl. apply in_window; lia.
  - intros j. destruct (Nat.lt_ge_cases j (length (splits H N))) as [Hj|Hj].
    + pose proof (@split_number_bound H N j ltac:(lia) Hj) as Hb.
      rewrite nth_split by lia. simpl. rewrite in_window by lia. lia.
    + rewrite nth_overflow by assumption. simpl. tauto.
Qed.

Lemma C6_leftover_in_every_train_witness :
  In 1%nat (fst (nth 2 (splits 3 14) ([], []))) /\
  forall j, ~ In 1%nat (snd (nth j (splits 3 14) ([], []))).
Proof.
  apply (@C6_leftover_in_every_train 14 3 2 1);
    [lia | vm_compute; lia | vm_compute; reflexivity].
Defined.

(** ** Rows of a frame *)

Lemma skipn_cons_nth_error {A} (l : list A) (a : nat) (x : A) :
  nth_error l a = Some x -> skipn a l = x :: skipn (S a) l.
Proof.
  revert a; induction l as [|y l IH]; intros [|a]; simpl; try discriminate.
  - now intros [= ->].
  - apply IH.
Qed.

Lemma nth_error_last {A} (l : list A) (d : A) :
  l <> [] -> nth_error l (length l - 1) = Some (last l d).
Proof.
  induction l as [|x l IH]; [congruence|]. intros _.
  destruct l as [|y l]; [reflexivity|].
  specialize (IH ltac:(discriminate)).
  simpl length in *. replace (S (S (length l)) - 1)%nat with (S (length l)) by lia.
  replace (S (length l) - 1)%nat with (length l) in IH by lia.
  exact IH.
Qed.

Lemma item_last {A} (l : list A) (d : A) :
  l <> [] -> item l (-1) = Ok (last l d).
Proof.
  intros Hl. unfold item.
  assert (length l <> 0)%nat by (destruct l; simpl; congruence).
  change (-1 <? 0)%Z with true. cbv iota zeta.
  destruct (Z.ltb_spec (-1 + Z.of_nat (length l)) 0); [lia|].
  replace (Z.to_nat (-1 + Z.of_nat (length l))) with (length l - 1)%nat by lia.
  now rewrite (nth_error_last d Hl).
Qed.

Lemma item_nil {A} (i : Z) : item (@nil A) i = Raise IndexError.
Proof.
  unfold item. simpl length.
  destruct (i <? 0)%Z; destruct (_ <? 0)%Z; try reflexivity;
    now destruct (Z.to_nat _).
Qed.

Lemma slice_tail {A} (l : list A) (h : nat) :
  (0 < h <= length l)%nat ->
  slice l (Some (- Z.of_nat h)%Z) None = skipn (length l - h) l.
Proof.
  intros Hh. unfold slice, adjust.
  destruct (Z.ltb_spec (- Z.of_nat h) 0); [|lia].
  rewrite Z.max_l by lia.
  replace (Z.to_nat (- Z.of_nat h + Z.of_nat (length l))) with (length l - h)%nat by lia.
  apply firstn_all2. rewrite length_skipn. lia.
Qed.

Lemma slice_tail_short {A} (l : list A) (h : nat) :
  (length l < h)%nat -> slice l (Some (- Z.of_nat h)%Z) None = l.
Proof.
  intros Hh. unfold slice, adjust.
  destruct (Z.ltb_spec (- Z.of_nat h) 0); [|lia].
  rewrite Z.max_r by lia. simpl skipn.
  apply firstn_all2. lia.
Qed.

Section Rows.

Context {V : Type} {AV : Arith V}.

Lemma iloc_seq (frame : list V) (a n : nat) :
  (a + n <= length frame)%nat ->
  iloc frame (seq a n) = Ok (firstn n (skipn a frame)).
Proof.
  revert a; induction n as [|n IH]; intros a Hle; simpl; [reflexivity|].
  destruct (nth_error frame a) as [x|] eqn:E.
  - rewrite IH by lia. simpl. now rewrite (skipn_cons_nth_error _ _ E).
  - apply nth_error_None in E. lia.
Qed.

Lemma iloc_window (frame : list V) (lo hi : Z) :
  (0 <= lo <= hi)%Z -> (hi <= Z.of_nat (length frame))%Z ->
  iloc frame (window lo hi)
  = Ok (firstn (Z.to_nat (hi - lo)) (skipn (Z.to_nat lo) frame)).
Proof. intros Hlo Hhi. apply iloc_seq. lia. Qed.

Lemma iloc_split (H : Z) (frame : list V) (k : nat) :
  (0 < H)%Z -> (k < length (splits H (length frame)))%nat ->
  iloc frame (fst (nth k (splits H (length frame)) ([], [])))
  = Ok (train_rows H frame k) /\
  iloc frame (snd (nth k (splits H (length frame)) ([], [])))
  = Ok (test_rows H frame k).
Proof.
  intros HH Hk.
  pose proof (@split_number_bound H (length frame) k HH Hk) as Hb.
  pose proof (Z.mod_pos_bound (Z.of_nat (length frame)) H HH) as Hm.
  rewrite nth_split by assumption. simpl fst; simpl snd.
  rewrite !iloc_window by lia. unfold train_rows, test_rows. split.
  - simpl skipn. do 2 f_equal. lia.
  - do 3 f_equal. lia.
Qed.

Lemma length_train_rows (H : Z) (frame : list V) (k : nat) :
  (0 < H)%Z -> (k < length (splits H (length frame)))%nat ->
  Z.of_nat (length (train_rows H frame k))
  = (Z.of_nat (length frame) - H * (Z.of_nat k + 1))%Z.
Proof.
  intros HH Hk. pose proof (@split_number_bound H (length frame) k HH Hk) as Hb.
  pose proof (Z.mod_pos_bound (Z.of_nat (length frame)) H HH) as Hm.
  unfold train_rows. rewrite length_firstn. lia.
Qed.

Lemma length_test_rows (H : Z) (frame : list V) (k : nat) :
  (0 < H)%Z -> (k < length (splits H (length frame)))%nat ->
  Z.of_nat (length (test_rows H frame k)) = H.
Proof.
  intros HH Hk. pose proof (@split_number_bound H (length frame) k HH Hk) as Hb.
  pose proof (Z.mod_pos_bound (Z.of_nat (length frame)) H HH) as Hm.
  unfold test_rows. rewrite length_firstn, length_skipn. lia.
Qed.

End Rows.

(** ** The forecasters on a window, whatever the numbers *)

Lemma xdiv_zero_len : @fdiv _ Exact fzero (of_len 0) = NaN.
Proof.
  simpl. destruct (Req_dec_T 0 0) as [_|Hne]; [reflexivity|]. now elim Hne.
Qed.

Lemma bdiv_zero_len : @fdiv _ Binary64 fzero (of_len 0) = nan.
Proof. vm_compute. reflexivity. Qed.

Lemma splits_nil_short (H : Z) (N : nat) :
  (0 < H)%Z -> (Z.of_nat N < 2 * H)%Z -> splits H N = [].
Proof.
  intros HH HN. apply length_zero_iff_nil. rewrite length_splits by assumption.
  assert (Z.of_nat N / H < 2)%Z by (apply Z.div_lt_upper_bound; lia).
  lia.
Qed.

Lemma seasonal_naive_cycle {V : Type} (train test : list V) :
  (1 <= length test)%nat -> (length test <= length train)%nat ->
  exists pred,
    naive_seasonal_forecast train test = Ok pred /\
    length pred = length test /\
    forall i d, (i < length test)%nat ->
      nth i pred d = nth (length train - length test + i) train d.
Proof.
  intros HH Hlen. unfold naive_seasonal_forecast.
  rewrite slice_tail by lia. eexists. split; [reflexivity|]. split.
  - rewrite length_skipn. lia.
  - intros i d Hi. apply nth_skipn.
Qed.

(** C4, as the specification states it, fails: with one value of history
    and a test block of two, nothing is raised; the forecast is the
    history itself, one value long. *)
Lemma C4_counterexample :
  (length [1%float] < length [2%float; 3%float])%nat /\
  naive_seasonal_forecast [1%float] [2%float; 3%float] = Ok [1%float] /\
  forall e, naive_seasonal_forecast [1%float] [2%float; 3%float] <> Raise e.
Proof.
  split; [simpl; lia|]. split; [reflexivity|]. intros e. discriminate.
Qed.

(** C4, amended. For a test block of [H >= 1] rows: when the training
    window has at least [H] rows the seasonal-naive forecast has [H] values,
    the one at offset [i] being the training value at position
    [len(train) - H + i]; when it has fewer, nothing is raised and the
    forecast is the whole training window, shorter than [H]. *)
Theorem C4_seasonal_naive_never_raises {V : Type} (train test : list V) :
  (1 <= length test)%nat ->
  ((length test <= length train)%nat ->
   exists pred,
     naive_seasonal_forecast train test = Ok pred /\
     length pred = length test /\
     forall i d, (i < length test)%nat ->
       nth i pred d = nth (length train - length test + i) train d) /\
  ((length train < length test)%nat ->
   naive_seasonal_forecast train test = Ok train).
Proof.
  intros HH. split; intros Hlen.
  - now apply seasonal_naive_cycle.
  - unfold naive_seasonal_forecast. now rewrite slice_tail_short.
Qed.

Lemma C4_seasonal_naive_never_raises_witness :
  (exists pred,
     naive_seasonal_forecast [1; 2; 3; 4; 5; 6]%float [0; 0; 0]%float = Ok pred /\
     length pred = 3%nat /\
     forall i d, (i < 3)%nat ->
       nth i pred d = nth (3 + i) [1; 2; 3; 4; 5; 6]%float d) /\
  naive_seasonal_forecast [1]%float [0; 0; 0]%float = Ok [1]%float.
Proof.
  split.
  - apply (@C4_seasonal_naive_never_raises _
             [1; 2; 3; 4; 5; 6]%float [0; 0; 0]%float); simpl; lia.
  - apply (@C4_seasonal_naive_never_raises _
             [1]%float [0; 0; 0]%float); simpl; lia.
Defined.

(** C9, as the specification states it, fails for the average forecaster:
    on an empty training window it raises nothing and forecasts NaN. *)
Lemma C9_counterexample :
  avg_forecast (@nil float) [1%float; 2%float] = Ok [nan; nan] /\
  forall e, avg_forecast (@nil float) [1%float; 2%float] <> Raise e.
Proof. split; [vm_compute; reflexivity | intros e; discriminate]. Qed.

(** C9, amended. On an empty training window the naive forecaster fails,
    with Python's [IndexError]; the average forecaster does not fail: the
    mean of no value is [0 / 0], and the forecast is NaN at each of its
    [H] places (in exact arithmetic and in binary64 alike). *)
Theorem C9_empty_train_window :
  (forall (V : Type) (AV : Arith V) (test : list V),
     naive_forecast [] test = Raise IndexError) /\
  (forall test : list xreal,
     avg_forecast [] test = Ok (repeat NaN (length test))) /\
  (forall test : list float,
     avg_forecast [] test = Ok (repeat nan (length test))).
Proof.
  split; [|split].
  - intros V AV test. unfold naive_forecast. now rewrite item_nil.
  - intros test. unfold avg_forecast, scale, np_ones, pd_mean.
    simpl filter. change (np_sum []) with (@fzero _ Exact). simpl length at 1.
    rewrite xdiv_zero_len, map_repeat. reflexivity.
  - intros test. unfold avg_forecast, scale, np_ones, pd_mean.
    simpl filter. change (np_sum []) with (@fzero _ Binary64). simpl length at 1.
    rewrite bdiv_zero_len, map_repeat. reflexivity.
Qed.

(** ** The loops *)

Section Loops.

Context {V : Type} {AV : Arith V}.

Lemma fold_rmse_body (forecast : list V -> list V -> result (list V))
    (frame : list V) (g : list nat * list nat -> V)
    (l : list (list nat * list nat)) (acc : list V) :
  (forall ij, In ij l -> split_rmse forecast frame ij = Ok (g ij)) ->
  fold_left (rmse_body forecast frame) l (Ok acc) = Ok (acc ++ map g l).
Proof.
  revert acc; induction l as [|ij l IH]; intros acc Hg; simpl.
  - now rewrite app_nil_r.
  - rewrite (Hg ij) by now left. simpl.
    rewrite IH by (intros; apply Hg; now right).
    now rewrite <- app_assoc.
Qed.

Lemma evaluate_no_split (forecast : list V -> list V -> result (list V))
    (H : Z) (frame : list V) :
  splits H (length frame) = [] ->
  evaluate forecast H frame = Ok ([], fdiv fzero (of_len 0)).
Proof. intros E. unfold evaluate, cv_rmses. rewrite E. reflexivity. Qed.

(** [evaluate] on each forecaster is the notebook's loop for it, followed
    by the mean of the list the loop has filled. *)
Lemma evaluate_loops (H : Z) (frame : list V) :
  evaluate avg_forecast H frame
  = (rmses <- avg_rmses H frame ;; Ok (rmses, np_mean rmses)) /\
  evaluate naive_forecast H frame
  = (rmses <- naive_rmses H frame ;; Ok (rmses, np_mean rmses)) /\
  evaluate naive_seasonal_forecast H frame
  = (rmses <- seasonal_naive_rmses H frame ;; Ok (rmses, np_mean rmses)).
Proof. repeat split. Qed.

End Loops.

(** C8, as the specification states it, fails: three rows and a horizon
    of two give no split, and the mean of the empty list of errors is NaN,
    returned without any failure. *)
Lemma C8_counterexample :
  (Z.of_nat (length [1%float; 2%float; 3%float]) < 2 * 2)%Z /\
  splits 2 (length [1%float; 2%float; 3%float]) = [] /\
  evaluate avg_forecast 2 [1%float; 2%float; 3%float] = Ok ([], nan) /\
  forall e, evaluate avg_forecast 2 [1%float; 2%float; 3%float] <> Raise e.
Proof.
  split; [simpl; lia|]. split; [reflexivity|].
  split; [vm_compute; reflexivity|]. intros e. vm_compute. discriminate.
Qed.

(** C8, amended. For a horizon [H >= 1], when the cell produces no
    split (as when the series has fewer than [2 * H] rows) the evaluation
    does not fail: the list of errors is empty and its mean is [0 / 0],
    which is NaN, in exact arithmetic and in binary64 alike. *)
Theorem C8_no_split_gives_nan {V : Type} {AV : Arith V}
    (forecast : list V -> list V -> result (list V)) (H : Z) (frame : list V) :
  (0 < H)%Z ->
  splits H (length frame) = [] \/ (Z.of_nat (length frame) < 2 * H)%Z ->
  evaluate forecast H frame = Ok ([], fdiv fzero (of_len 0)) /\
  @fdiv _ Exact fzero (of_len 0) = NaN /\
  @fdiv _ Binary64 fzero (of_len 0) = nan.
Proof.
  intros HH Hs. split; [|split].
  - apply evaluate_no_split. destruct Hs as [E|HN]; [exact E|].
    now apply splits_nil_short.
  - apply xdiv_zero_len.
  - apply bdiv_zero_len.
Qed.

Lemma C8_no_split_gives_nan_witness :
  evaluate naive_forecast 3 [Fin 1; Fin 2; Fin 3; Fin 4; Fin 5] = Ok ([], NaN).
Proof.
  pose proof (@C8_no_split_gives_nan _ Exact naive_forecast 3
                [Fin 1; Fin 2; Fin 3; Fin 4; Fin 5]
                eq_refl (or_intror eq_refl)) as (E & En & _).
  rewrite E, En. reflexivity.
Defined.

(** C10. Every training window of the cell has [N - H*(k+1)] rows, which
    is at least [H + N mod H]: it is never empty, the naive forecaster finds
    its last value, and the seasonal-naive forecaster finds a whole cycle and
    returns exactly [H] values. *)
Theorem C10_train_window_has_a_cycle {V : Type} {AV : Arith V}
    (H : Z) (frame : list V) (k : nat) :
  (1 <= H < Z.of_nat (length frame))%Z ->
  (k < length (splits H (length frame)))%nat ->
  exists train test seasonal,
    iloc frame (fst (nth k (splits H (length frame)) ([], []))) = Ok train /\
    iloc frame (snd (nth k (splits H (length frame)) ([], []))) = Ok test /\
    Z.of_nat (length train)
    = (Z.of_nat (length frame) - H * (Z.of_nat k + 1))%Z /\
    (H + Z.of_nat (length frame) mod H <= Z.of_nat (length train))%Z /\
    train <> [] /\
    Z.of_nat (length test) = H /\
    naive_seasonal_forecast train test = Ok seasonal /\
    Z.of_nat (length seasonal) = H /\
    (forall d, naive_forecast train test
               = Ok (scale (last train d) (np_ones (length test)))).
Proof.
  intros HH Hk.
  pose proof (@split_number_bound H (length frame) k ltac:(lia) Hk) as Hb.
  pose proof (@iloc_split V H frame k ltac:(lia) Hk) as [Etr Ete].
  pose proof (@length_train_rows V H frame k ltac:(lia) Hk) as Ltr.
  pose proof (@length_test_rows V H frame k ltac:(lia) Hk) as Lte.
  pose proof (Z.mod_pos_bound (Z.of_nat (length frame)) H ltac:(lia)) as Hm.
  assert (train_rows H frame k <> []) as Hne.
  { intros E. rewrite E in Ltr. simpl in Ltr. lia. }
  destruct (@seasonal_naive_cycle V (train_rows H frame k) (test_rows H frame k))
    as (pred & Ep & Lp & _); [lia | lia |].
  exists (train_rows H frame k), (test_rows H frame k), pred.
  repeat split; try assumption; try lia.
  intros d. unfold naive_forecast. now rewrite (item_last d Hne).
Qed.

Lemma C10_train_window_has_a_cycle_witness :
  exists train test seasonal,
    iloc [1; 2; 3; 4; 5; 6; 7]%float
         (fst (nth 1 (splits 2 7) ([], []))) = Ok train /\
    iloc [1; 2; 3; 4; 5; 6; 7]%float
         (snd (nth 1 (splits 2 7) ([], []))) = Ok test /\
    Z.of_nat (length train) = 3%Z /\
    (3 <= Z.of_nat (length train))%Z /\
    train <> [] /\
    Z.of_nat (length test) = 2%Z /\
    naive_seasonal_forecast train test = Ok seasonal /\
    Z.of_nat (length seasonal) = 2%Z /\
    (forall d, naive_forecast train test
               = Ok (scale (last train d) (np_ones (length test)))).
Proof.
  apply (@C10_train_window_has_a_cycle _ Binary64 2
           [1; 2; 3; 4; 5; 6; 7]%float 1);
    [simpl; lia | vm_compute; lia].
Defined.

(** ** Exact arithmetic *)

Section ExactArithmetic.

Local Open Scope R_scope.

Lemma xdiv_fin (a b : R) : b <> 0 -> xdiv (Fin a) (Fin b) = Fin (a / b).
Proof. intros Hb. unfold xdiv. now destruct (Req_dec_T b 0). Qed.

Lemma xsqrt_fin (a : R) : 0 <= a -> xsqrt (Fin a) = Fin (R_sqrt.sqrt a).
Proof. intros Ha. unfold xsqrt. destruct (Rlt_dec a 0); [lra|reflexivity]. Qed.

Lemma fold_add_fin (l : list R) (a : R) :
  fold_left (xlift2 Rplus) (map Fin l) (Fin a) = Fin (a + Rsum l).
Proof.
  revert a; induction l as [|x l IH]; intros a; simpl.
  - f_equal. unfold Rsum. simpl. lra.
  - rewrite IH. f_equal. unfold Rsum. simpl. lra.
Qed.

Lemma np_sum_fin (l : list R) : np_sum (map Fin l) = Fin (Rsum l).
Proof.
  unfold np_sum. change (fold_left (xlift2 Rplus) (map Fin l) (Fin 0) = Fin (Rsum l)).
  rewrite fold_add_fin. f_equal. lra.
Qed.

Lemma filter_fin (l : list R) :
  filter (fun x => negb (isnan x)) (map Fin l) = map Fin l.
Proof. induction l as [|x l IH]; simpl; [reflexivity|now f_equal]. Qed.

Lemma INR_length_neq_0 {A} (l : list A) : l <> [] -> INR (length l) <> 0.
Proof. intros Hl. apply not_0_INR. destruct l; simpl; congruence. Qed.

Lemma np_mean_fin (l : list R) :
  l <> [] -> np_mean (map Fin l) = Fin (arithmetic_mean l).
Proof.
  intros Hl. unfold np_mean. rewrite np_sum_fin, length_map.
  change (xdiv (Fin (Rsum l)) (Fin (INR (length l))) = Fin (arithmetic_mean l)).
  now rewrite xdiv_fin by now apply INR_length_neq_0.
Qed.

Lemma pd_mean_fin (l : list R) :
  l <> [] -> pd_mean (map Fin l) = Fin (arithmetic_mean l).
Proof.
  intros Hl. unfold pd_mean. rewrite filter_fin, np_sum_fin, length_map.
  change (xdiv (Fin (Rsum l)) (Fin (INR (length l))) = Fin (arithmetic_mean l)).
  now rewrite xdiv_fin by now apply INR_length_neq_0.
Qed.

Lemma scale_ones_fin (m : R) (h : nat) :
  scale (Fin m) (np_ones h) = repeat (Fin m) h.
Proof.
  unfold scale, np_ones. rewrite map_repeat. f_equal.
  change (Fin (m * 1) = Fin m). f_equal. lra.
Qed.

Lemma last_map_fin (l : list R) (d : R) :
  last (map Fin l) (Fin d) = Fin (last l d).
Proof.
  induction l as [|x l IH]; [reflexivity|].
  destruct l as [|y l]; [reflexivity|]. exact IH.
Qed.

Lemma avg_forecast_fin (train : list R) (test : list xreal) :
  train <> [] ->
  avg_forecast (map Fin train) test
  = Ok (repeat (Fin (arithmetic_mean train)) (length test)).
Proof.
  intros Hne. unfold avg_forecast.
  now rewrite pd_mean_fin, scale_ones_fin.
Qed.

Lemma naive_forecast_fin (train : list R) (test : list xreal) :
  train <> [] ->
  naive_forecast (map Fin train) test
  = Ok (repeat (Fin (last train 0)) (length test)).
Proof.
  intros Hne. unfold naive_forecast.
  rewrite (@item_last _ (map Fin train) (Fin 0))
    by (destruct train; simpl; congruence).
  simpl bind. now rewrite last_map_fin, scale_ones_fin.
Qed.

Lemma residuals_fin (pred actual : list R) :
  map (fun r : xreal => fmul r r)
      (map (fun pa : xreal * xreal => fsub (fst pa) (snd pa))
           (combine (map Fin pred) (map Fin actual)))
  = map Fin (sq_residuals pred actual).
Proof.
  unfold sq_residuals.
  revert actual; induction pred as [|p pred IH]; intros [|a actual];
    simpl; try reflexivity.
  now rewrite IH.
Qed.

Lemma Rsum_sq_residuals_nonneg (pred actual : list R) :
  0 <= Rsum (sq_residuals pred actual).
Proof.
  unfold sq_residuals.
  revert actual; induction pred as [|p pred IH]; intros [|a actual];
    unfold Rsum; simpl; try lra.
  specialize (IH actual). unfold Rsum in IH.
  pose proof (Rle_0_sqr (p - a)) as Hs. unfold Rsqr in Hs. lra.
Qed.

Lemma get_rmse_fin (pred actual : list R) :
  length pred = length actual -> pred <> [] ->
  get_rmse (map Fin pred) (map Fin actual)
  = Ok (Fin (R_sqrt.sqrt (Rsum (sq_residuals pred actual) / INR (length pred)))).
Proof.
  intros E Hne. unfold get_rmse, residuals. rewrite !length_map.
  rewrite (proj2 (Nat.eqb_eq _ _) E). cbn [bind].
  rewrite residuals_fin. unfold pd_sum. rewrite filter_fin, np_sum_fin.
  rewrite length_map, length_combine, !length_map, <- E, Nat.min_id.
  change (Ok (xsqrt (xdiv (Fin (Rsum (sq_residuals pred actual)))
                          (Fin (INR (length pred))))) = 
          Ok (Fin (R_sqrt.sqrt (Rsum (sq_residuals pred actual) / INR (length pred))))).
  pose proof (INR_length_neq_0 Hne) as Hn.
  rewrite xdiv_fin by assumption. rewrite xsqrt_fin; [reflexivity|].
  pose proof (Rsum_sq_residuals_nonneg pred actual).
  pose proof (pos_INR (length pred)).
  apply Rmult_le_pos; [assumption|].
  apply Rlt_le, Rinv_0_lt_compat. lra.
Qed.


End ExactArithmetic.

(** ** Binary64 arithmetic

    Facts about the rounded operations, from their specification
    ([Prim2SF] and the operations on [spec_float]). *)

Section Binary64Arithmetic.

Lemma Prim2SF_one : Prim2SF 1%float = S754_finite false 4503599627370496 (-52).
Proof. vm_compute. reflexivity. Qed.

Lemma Prim2SF_zero : Prim2SF 0%float = S754_zero false.
Proof. vm_compute. reflexivity. Qed.

Lemma digits2_pos_shift52 (m : positive) :
  Zpos (digits2_pos (m * 4503599627370496))
  = (Zpos (digits2_pos m) + 52)%Z.
Proof. rewrite Pos.mul_comm. cbn [Pos.mul digits2_pos]. lia. Qed.

Lemma iter_shr_1_52 (m : positive) :
  iter_pos shr_1 52
    {| shr_m := Zpos (m * 4503599627370496); shr_r := false; shr_s := false |}
  = {| shr_m := Zpos m; shr_r := false; shr_s := false |}.
Proof. rewrite Pos.mul_comm. cbn. reflexivity. Qed.

(** Rounding [m * 2^52 * 2^(e - 52)] gives back [m * 2^e]. *)
Lemma round_times_one (s : bool) (m : positive) (e : Z) :
  bounded prec emax m e = true ->
  binary_round_aux prec emax s (Zpos (m * 4503599627370496)) (e + -52)
    loc_Exact
  = S754_finite s m e.
Proof.
  intros Hb. unfold bounded in Hb. apply andb_prop in Hb.
  destruct Hb as [Hc He].
  unfold canonical_mantissa in Hc. apply Z.eqb_eq in Hc.
  assert (shr_fexp prec emax (Zpos (m * 4503599627370496)) (e + -52) loc_Exact
          = ({| shr_m := Zpos m; shr_r := false; shr_s := false |}, e)) as E1.
  { unfold shr_fexp, Zdigits2. rewrite digits2_pos_shift52.
    replace (Zpos (digits2_pos m) + 52 + (e + -52))%Z
      with (Zpos (digits2_pos m) + e)%Z by lia.
    rewrite Hc. replace (e - (e + -52))%Z with 52%Z by lia.
    unfold shr, shr_record_of_loc. rewrite iter_shr_1_52. f_equal. lia. }
  assert (shr_fexp prec emax (Zpos m) e loc_Exact
          = ({| shr_m := Zpos m; shr_r := false; shr_s := false |}, e)) as E2.
  { unfold shr_fexp, Zdigits2. rewrite Hc, Z.sub_diag. reflexivity. }
  unfold binary_round_aux. rewrite E1.
  cbn [shr_m loc_of_shr_record round_nearest_even].
  rewrite E2. cbn [shr_m]. now rewrite He.
Qed.

(** [x * 1.0] is [x], for every float: finite, infinite or NaN. *)
Lemma b64_mul_one (x : float) : (x * 1)%float = x.
Proof.
  apply Prim2SF_inj. rewrite mul_spec, Prim2SF_one.
  pose proof (@Prim2SF_valid x) as Hv.
  destruct (Prim2SF x) as [s|s| |s m e]; cbn [SF64mul SFmul].
  - now rewrite xorb_false_r.
  - now rewrite xorb_false_r.
  - reflexivity.
  - rewrite xorb_false_r. now apply round_times_one.
Qed.

Lemma finite_cases (x : float) :
  is_finite x = true ->
  (exists s, Prim2SF x = S754_zero s) \/
  (exists s m e, Prim2SF x = S754_finite s m e).
Proof.
  unfold is_finite. intros Hf. apply negb_true_iff, orb_false_iff in Hf.
  destruct Hf as [Hn Hi]. unfold Prim2SF. rewrite Hn, Hi.
  destruct (is_zero x); [left; eauto|].
  destruct (Z.frexp x) as [r ex].
  destruct (shr_fexp _ _ _ _ _) as [sh e'].
  destruct (shr_m sh); [left|right|left]; eauto.
Qed.

(** [x - x] is [+0.0], for every finite float. *)
Lemma b64_sub_diag (x : float) :
  is_finite x = true -> (x - x)%float = 0%float.
Proof.
  intros Hf. apply Prim2SF_inj. rewrite sub_spec, Prim2SF_zero.
  destruct (@finite_cases x Hf) as [(s & E)|(s & m & e & E)]; rewrite E.
  - now destruct s.
  - cbn [SF64sub SFsub]. rewrite Z.min_id. unfold shl_align.
    now rewrite !Z.sub_diag.
Qed.

Lemma shr_1_m (r : shr_record) :
  (0 <= shr_m r)%Z -> shr_m (shr_1 r) = (shr_m r / 2)%Z.
Proof.
  destruct r as [m b s]. cbn [shr_m]. intros Hm.
  destruct m as [|[p|p|]|p]; cbn [shr_1 shr_m].
  all: try (exfalso; lia).
  all: try reflexivity.
  - apply Z.div_unique with 1%Z; lia.
  - apply Z.div_unique with 0%Z; lia.
Qed.

Lemma iter_shr_1_m (n : positive) (r : shr_record) :
  (0 <= shr_m r)%Z ->
  shr_m (iter_pos shr_1 n r) = (shr_m r / 2 ^ Zpos n)%Z.
Proof.
  revert r; induction n as [n IH|n IH|]; intros r Hr; cbn [iter_pos].
  - assert (0 <= shr_m (shr_1 r))%Z as H1
      by (rewrite shr_1_m by assumption; apply Z.div_pos; lia).
    assert (0 <= shr_m (iter_pos shr_1 n (shr_1 r)))%Z as H2
      by (rewrite IH by assumption; apply Z.div_pos; lia).
    rewrite IH, IH, shr_1_m by assumption.
    assert (2 ^ Zpos n~1 = 2 * 2 ^ Zpos n * 2 ^ Zpos n)%Z as ->.
    { replace (Zpos n~1) with (1 + Zpos n + Zpos n)%Z by lia.
      rewrite !Z.pow_add_r by lia. reflexivity. }
    assert (0 < 2 ^ Zpos n)%Z by (apply Z.pow_pos_nonneg; lia).
    rewrite !Z.div_div by lia. f_equal; ring.
  - assert (0 <= shr_m (iter_pos shr_1 n r))%Z as H2
      by (rewrite IH by assumption; apply Z.div_pos; lia).
    rewrite IH, IH by assumption.
    assert (2 ^ Zpos n~0 = 2 ^ Zpos n * 2 ^ Zpos n)%Z as ->.
    { replace (Zpos n~0) with (Zpos n + Zpos n)%Z by lia.
      rewrite !Z.pow_add_r by lia. reflexivity. }
    assert (0 < 2 ^ Zpos n)%Z by (apply Z.pow_pos_nonneg; lia).
    rewrite !Z.div_div by lia. f_equal; ring.
  - rewrite shr_1_m by assumption. reflexivity.
Qed.

Lemma digits2_pos_lower (p : positive) :
  (2 ^ (Zpos (digits2_pos p) - 1) <= Zpos p)%Z.
Proof.
  induction p as [p IH|p IH|]; cbn [digits2_pos].
  - rewrite Pos2Z.inj_succ.
    replace (Z.succ (Zpos (digits2_pos p)) - 1)%Z
      with (1 + (Zpos (digits2_pos p) - 1))%Z by lia.
    rewrite Z.pow_add_r by lia. lia.
  - rewrite Pos2Z.inj_succ.
    replace (Z.succ (Zpos (digits2_pos p)) - 1)%Z
      with (1 + (Zpos (digits2_pos p) - 1))%Z by lia.
    rewrite Z.pow_add_r by lia. lia.
  - cbn. lia.
Qed.

Lemma shr_record_of_loc_m (m : Z) (l : location) :
  shr_m (shr_record_of_loc m l) = m.
Proof. destruct l as [|[| |]]; reflexivity. Qed.

(** A positive mantissa stays positive when it is shifted to its
    exponent. *)
Lemma shr_fexp_pos (p : positive) (e : Z) (l : location) :
  (emin <= e)%Z ->
  (0 < shr_m (fst (shr_fexp prec emax (Zpos p) e l)))%Z /\
  (emin <= snd (shr_fexp prec emax (Zpos p) e l))%Z.
Proof.
  intros He. unfold shr_fexp, Zdigits2, shr.
  set (d := Zpos (digits2_pos p)).
  assert (fexp prec emax (d + e) - e <= d - 1)%Z as Hn
    by (unfold fexp, SpecFloat.emin, prec, emax in *; lia).
  destruct (fexp prec emax (d + e) - e)%Z as [|n|n] eqn:En; cbn [fst snd].
  - rewrite shr_record_of_loc_m. lia.
  - rewrite iter_shr_1_m by (rewrite shr_record_of_loc_m; lia).
    rewrite shr_record_of_loc_m. split; [|lia].
    apply Z.div_str_pos. split; [apply Z.pow_pos_nonneg; lia|].
    apply Z.le_trans with (2 ^ (d - 1))%Z; [|apply digits2_pos_lower].
    apply Z.pow_le_mono_r; lia.
  - rewrite shr_record_of_loc_m. lia.
Qed.

Lemma round_nearest_even_ge (m : Z) (l : location) :
  (m <= round_nearest_even m l)%Z.
Proof.
  destruct l as [|[| |]]; cbn [round_nearest_even]; try lia.
  destruct (Z.even m); lia.
Qed.

Lemma binary_round_aux_pos (s : bool) (p : positive) (e : Z) (l : location) :
  (emin <= e)%Z ->
  binary_round_aux prec emax s (Zpos p) e l = S754_infinity s \/
  exists m e', binary_round_aux prec emax s (Zpos p) e l = S754_finite s m e'.
Proof.
  intros He. unfold binary_round_aux.
  destruct (@shr_fexp_pos p e l He) as [H1 H1e].
  destruct (shr_fexp prec emax (Zpos p) e l) as [r1 e1]. cbn [fst snd] in *.
  pose proof (@round_nearest_even_ge (shr_m r1) (loc_of_shr_record r1)) as Hr.
  destruct (round_nearest_even (shr_m r1) (loc_of_shr_record r1)) as [|p1|p1];
    try lia.
  destruct (@shr_fexp_pos p1 e1 loc_Exact H1e) as [H2 _].
  destruct (shr_fexp prec emax (Zpos p1) e1 loc_Exact) as [r2 e2].
  cbn [fst] in H2. destruct (shr_m r2) as [|m|m]; try lia.
  destruct (e2 <=? emax - prec)%Z; [right; eauto|now left].
Qed.

Lemma binary_round_pos (p : positive) :
  binary_round prec emax false p 0 = S754_infinity false \/
  exists m e, binary_round prec emax false p 0 = S754_finite false m e.
Proof.
  unfold binary_round, shl_align.
  assert (emin <= fexp prec emax (Zpos (digits2_pos p) + 0))%Z as Hf
    by (unfold fexp; lia).
  destruct (fexp prec emax (Zpos (digits2_pos p) + 0) - 0)%Z eqn:E;
    apply binary_round_aux_pos; unfold SpecFloat.emin, prec, emax in *; lia.
Qed.

(** [0.0 / n] is [+0.0] for a length [n] from 1 up to what 63 bits
    hold. *)
Lemma b64_div_zero_len (n : nat) :
  (1 <= n)%nat -> (Z.of_nat n < 2 ^ 63)%Z ->
  @fdiv _ Binary64 fzero (of_len n) = 0%float.
Proof.
  intros H1 H2. cbn [fdiv fzero of_len Binary64].
  apply Prim2SF_inj. rewrite div_spec, Prim2SF_zero.
  rewrite of_uint63_spec, Uint63.of_Z_spec.
  rewrite Z.mod_small by (change Uint63.wB with (2 ^ 63)%Z; lia).
  destruct (Z.of_nat n) as [|p|p] eqn:E; try lia.
  cbn [binary_normalize].
  destruct (@binary_round_pos p) as [Ei|(m & e & Ef)].
  - rewrite Ei. reflexivity.
  - rewrite Ef. reflexivity.
Qed.









Lemma b64_sum_zeros (n : nat) : np_sum (repeat 0%float n) = 0%float.
Proof.
  unfold np_sum. cbn [fzero fadd Binary64].
  induction n as [|n IH]; [reflexivity|]. simpl. exact IH.
Qed.

Lemma b64_pd_sum_zeros (n : nat) : pd_sum (repeat 0%float n) = 0%float.
Proof.
  unfold pd_sum.
  assert (filter (fun x : float => negb (isnan x)) (repeat 0%float n)
          = repeat 0%float n) as ->; [|apply b64_sum_zeros].
  induction n as [|n IH]; [reflexivity|].
  cbn [repeat filter]. rewrite IH. reflexivity.
Qed.

Lemma b64_residuals_self (l : list float) :
  Forall (fun v => is_finite v = true) l ->
  map (fun pa : float * float => fsub (fst pa) (snd pa)) (combine l l)
  = repeat 0%float (length l).
Proof.
  induction 1 as [|x l Hx _ IH]; [reflexivity|].
  cbn [combine map length repeat fst snd]. rewrite IH. f_equal.
  now apply b64_sub_diag.
Qed.

(** The error of a finite sequence against itself is exactly zero. *)
Lemma b64_get_rmse_self (l : list float) :
  l <> [] ->
  Forall (fun v => is_finite v = true) l ->
  (Z.of_nat (length l) < 2 ^ 63)%Z ->
  get_rmse l l = Ok 0%float.
Proof.
  intros Hne Hfin Hlen. unfold get_rmse, residuals.
  rewrite Nat.eqb_refl. cbn [bind].
  rewrite b64_residuals_self by assumption.
  rewrite map_repeat, repeat_length.
  change (fmul 0%float 0%float) with 0%float.
  rewrite b64_pd_sum_zeros, b64_div_zero_len;
    [reflexivity | destruct l; simpl; [congruence|lia] | assumption].
Qed.

Lemma b64_np_mean_zeros (m : nat) :
  (1 <= m)%nat -> (Z.of_nat m < 2 ^ 63)%Z ->
  np_mean (repeat 0%float m) = 0%float.
Proof.
  intros H1 H2. unfold np_mean.
  rewrite b64_sum_zeros, repeat_length. now apply b64_div_zero_len.
Qed.

End Binary64Arithmetic.









(** ** A constant series *)

Lemma skipn_repeat {A} (x : A) (a m : nat) :
  skipn a (repeat x m) = repeat x (m - a).
Proof.
  revert m; induction a as [|a IH]; intros [|m]; simpl; try reflexivity.
  apply IH.
Qed.

Lemma firstn_repeat {A} (x : A) (n m : nat) :
  firstn n (repeat x m) = repeat x (Nat.min n m).
Proof.
  revert m; induction n as [|n IH]; intros [|m]; simpl; try reflexivity.
  now rewrite IH.
Qed.

Lemma last_repeat {A} (x d : A) (n : nat) :
  (1 <= n)%nat -> last (repeat x n) d = x.
Proof.
  induction n as [|n IH]; [lia|]. intros _.
  destruct n as [|n]; [reflexivity|].
  change (last (repeat x (S n)) d = x). apply IH. lia.
Qed.

Lemma repeat_neq_nil {A} (x : A) (n : nat) : (1 <= n)%nat -> repeat x n <> [].
Proof. destruct n; [lia|discriminate]. Qed.

Section ConstantSeries.

Context {V : Type} {AV : Arith V}.

Variable x : V.

Lemma train_rows_repeat (H : Z) (N k : nat) :
  (0 < H)%Z -> (k < length (splits H N))%nat ->
  train_rows H (repeat x N) k
  = repeat x (Z.to_nat (Z.of_nat N - H * (Z.of_nat k + 1))).
Proof.
  intros HH Hk. pose proof (@split_number_bound H N k HH Hk) as Hb.
  pose proof (Z.mod_pos_bound (Z.of_nat N) H HH) as Hm.
  unfold train_rows. rewrite repeat_length, firstn_repeat. f_equal. lia.
Qed.

Lemma test_rows_repeat (H : Z) (N k : nat) :
  (0 < H)%Z -> (k < length (splits H N))%nat ->
  test_rows H (repeat x N) k = repeat x (Z.to_nat H).
Proof.
  intros HH Hk. pose proof (@split_number_bound H N k HH Hk) as Hb.
  pose proof (Z.mod_pos_bound (Z.of_nat N) H HH) as Hm.
  unfold test_rows. rewrite repeat_length, skipn_repeat, firstn_repeat.
  f_equal. lia.
Qed.

Lemma naive_forecast_const :
  fmul x fone = x -> keeps_constant x naive_forecast.
Proof.
  intros E1 a h Ha. unfold naive_forecast.
  rewrite (@item_last _ (repeat x a) x) by (apply repeat_neq_nil; lia).
  cbn [bind]. rewrite last_repeat by lia.
  unfold scale, np_ones. rewrite map_repeat, !repeat_length.
  now rewrite E1.
Qed.

Lemma naive_seasonal_forecast_const : keeps_constant x naive_seasonal_forecast.
Proof.
  intros a h Ha. unfold naive_seasonal_forecast.
  rewrite slice_tail by (rewrite !repeat_length; lia).
  rewrite skipn_repeat, !repeat_length. do 2 f_equal. lia.
Qed.

Lemma split_rmse_const forecast (z : V) (H : Z) (N k : nat) :
  keeps_constant x forecast ->
  get_rmse (repeat x (Z.to_nat H)) (repeat x (Z.to_nat H)) = Ok z ->
  (0 < H)%Z -> (k < length (splits H N))%nat ->
  split_rmse forecast (repeat x N) (nth k (splits H N) ([], [])) = Ok z.
Proof.
  intros Hf Hz HH Hk.
  pose proof (@split_number_bound H N k HH Hk) as Hb.
  pose proof (Z.mod_pos_bound (Z.of_nat N) H HH) as Hm.
  pose proof (@iloc_split V H (repeat x N) k HH) as Hi.
  rewrite repeat_length in Hi. destruct (Hi Hk) as [Etr Ete].
  unfold split_rmse. rewrite Etr, Ete. cbn [bind].
  rewrite train_rows_repeat, test_rows_repeat by assumption.
  rewrite Hf by lia. cbn [bind]. exact Hz.
Qed.

(** On a constant series every split has the error [z] of a window
    against itself, and the loop returns as many [z] as there are splits. *)
Lemma evaluate_const forecast (z : V) (H : Z) (N : nat) :
  keeps_constant x forecast ->
  get_rmse (repeat x (Z.to_nat H)) (repeat x (Z.to_nat H)) = Ok z ->
  np_mean (repeat z (length (splits H N))) = z ->
  (0 < H)%Z ->
  evaluate forecast H (repeat x N) = Ok (repeat z (length (splits H N)), z).
Proof.
  intros Hf Hz Hm HH. unfold evaluate, cv_rmses. rewrite repeat_length.
  rewrite (@fold_rmse_body _ _ forecast _ (fun _ => z)).
  - cbn [app bind]. rewrite map_const. now rewrite Hm.
  - intros ij Hin.
    destruct (In_nth _ _ ([], []) Hin) as (k & Hk & <-).
    now apply split_rmse_const.
Qed.

End ConstantSeries.

Section ConstantSeriesExact.

Local Open Scope R_scope.

Variable c : R.

Lemma Rsum_repeat (x : R) (n : nat) : Rsum (repeat x n) = INR n * x.
Proof.
  induction n as [|n IH]; unfold Rsum in *.
  - simpl. lra.
  - rewrite S_INR. simpl repeat. simpl fold_right. rewrite IH. lra.
Qed.

Lemma arithmetic_mean_repeat (x : R) (n : nat) :
  (1 <= n)%nat -> arithmetic_mean (repeat x n) = x.
Proof.
  intros Hn. unfold arithmetic_mean. rewrite Rsum_repeat, repeat_length.
  field. apply not_0_INR. lia.
Qed.

Lemma Rsum_sq_residuals_same (l : list R) : Rsum (sq_residuals l l) = 0.
Proof.
  unfold sq_residuals, Rsum. induction l as [|x l IH]; simpl; [reflexivity|].
  rewrite IH. lra.
Qed.

Lemma repeat_fin (x : R) (n : nat) : repeat (Fin x) n = map Fin (repeat x n).
Proof. now rewrite map_repeat. Qed.

Lemma get_rmse_const (h : nat) :
  (1 <= h)%nat -> get_rmse (repeat (Fin c) h) (repeat (Fin c) h) = Ok (Fin 0).
Proof.
  intros Hh. rewrite repeat_fin.
  rewrite get_rmse_fin by (try apply repeat_neq_nil; auto).
  rewrite Rsum_sq_residuals_same, Rdiv_0_l, sqrt_0. reflexivity.
Qed.

Lemma avg_forecast_const : keeps_constant (Fin c) avg_forecast.
Proof.
  intros a h Ha. rewrite (repeat_fin c a).
  rewrite avg_forecast_fin by (apply repeat_neq_nil; lia).
  rewrite arithmetic_mean_repeat by lia. now rewrite repeat_length.
Qed.

Lemma np_mean_zeros_fin (m : nat) :
  (1 <= m)%nat -> np_mean (repeat (Fin 0) m) = Fin 0.
Proof.
  intros Hm. rewrite (repeat_fin 0), np_mean_fin by (apply repeat_neq_nil; lia).
  now rewrite arithmetic_mean_repeat by lia.
Qed.

Lemma evaluate_const_fin forecast (H : Z) (N : nat) :
  keeps_constant (Fin c) forecast ->
  (0 < H)%Z -> (1 <= length (splits H N))%nat ->
  evaluate forecast H (repeat (Fin c) N)
  = Ok (repeat (Fin 0) (length (splits H N)), Fin 0).
Proof.
  intros Hf HH Hs. apply evaluate_const; try assumption.
  - apply get_rmse_const. lia.
  - now apply np_mean_zeros_fin.
Qed.

End ConstantSeriesExact.

(** The number of splits is at most the number of rows. *)
Lemma splits_count_le (H : Z) (N : nat) :
  (0 < H)%Z -> (length (splits H N) <= N)%nat.
Proof.
  intros HH. destruct (length (splits H N)) as [|k] eqn:E; [lia|].
  assert (k < length (splits H N))%nat as Hk by lia.
  pose proof (@split_number_bound H N k HH Hk) as Hb.
  pose proof (Z.mod_pos_bound (Z.of_nat N) H HH) as Hm.
  nia.
Qed.

Lemma evaluate_const_b64 forecast (x : float) (H : Z) (N : nat) :
  keeps_constant x forecast ->
  (0 < H)%Z -> (1 <= length (splits H N))%nat ->
  is_finite x = true ->
  (Z.of_nat N < 2 ^ 63)%Z ->
  evaluate forecast H (repeat x N)
  = Ok (repeat 0%float (length (splits H N)), 0%float).
Proof.
  intros Hf HH Hs Hx HN.
  assert (0 < length (splits H N))%nat as Hk by lia.
  pose proof (@split_number_bound H N 0 HH Hk) as Hb.
  pose proof (Z.mod_pos_bound (Z.of_nat N) H HH) as Hm.
  pose proof (@splits_count_le H N HH) as Hc.
  apply evaluate_const; try assumption.
  - apply b64_get_rmse_self.
    + apply repeat_neq_nil. lia.
    + apply Forall_forall. intros y Hy. apply repeat_spec in Hy. now subst.
    + rewrite repeat_length. lia.
  - apply b64_np_mean_zeros; lia.
Qed.

(** ** Evaluations in binary64 *)

Example naive_forecast_last_value :
  naive_forecast [3; 1; 4; 1; 5]%float [0; 0]%float = Ok [5; 5]%float.
Proof. vm_compute. reflexivity. Qed.

Example avg_forecast_mean :
  avg_forecast [5; 5; 5]%float [0; 0; 0]%float = Ok [5; 5; 5]%float.
Proof. vm_compute. reflexivity. Qed.

Example naive_seasonal_forecast_last_cycle :
  naive_seasonal_forecast [1; 2; 3; 4; 5; 6]%float [0; 0; 0]%float
  = Ok [4; 5; 6]%float.
Proof. vm_compute. reflexivity. Qed.

Example mean_of_three_tenths :
  pd_mean [tenth; tenth; tenth] = 0x1.999999999999bp-4%float.
Proof. vm_compute. reflexivity. Qed.

Example naive_on_tenths :
  evaluate naive_forecast 2 (repeat tenth 5) = Ok ([0%float], 0%float) /\
  evaluate naive_seasonal_forecast 2 (repeat tenth 5) = Ok ([0%float], 0%float).
Proof. split; vm_compute; reflexivity. Qed.

(** C7, as the specification states it, fails in binary64: on five values
    all equal to the float nearest to 0.1 and a horizon of two, the only
    split trains on three values; their sum over three is not the value
    itself, and the error of the average forecaster is a rounding residue,
    not zero. *)
Lemma C7_counterexample :
  (1 <= length (splits 2 5))%nat /\
  exists e,
    evaluate avg_forecast 2 (repeat tenth 5) = Ok ([e], e) /\
    e <> 0%float.
Proof.
  split; [vm_compute; lia|].
  exists 0x1p-56%float. split; [vm_compute; reflexivity|].
  intros E. apply (f_equal classify) in E. vm_compute in E. discriminate.
Qed.

(** C7, amended. On a series whose values are all equal and for a horizon
    that gives at least one split: in binary64, for a finite value, the naive
    and the seasonal-naive loop yield an error of exactly zero for every
    split, and the mean of the errors is zero; the average loop does so in
    exact arithmetic. *)
Theorem C7_constant_series_zero_error (x : float) (c : R) (H : Z) (N : nat) :
  (1 <= H)%Z ->
  (1 <= length (splits H N))%nat ->
  is_finite x = true ->
  (Z.of_nat N < 2 ^ 63)%Z ->
  evaluate naive_forecast H (repeat x N)
  = Ok (repeat 0%float (length (splits H N)), 0%float) /\
  evaluate naive_seasonal_forecast H (repeat x N)
  = Ok (repeat 0%float (length (splits H N)), 0%float) /\
  evaluate avg_forecast H (repeat (Fin c) N)
  = Ok (repeat (Fin 0) (length (splits H N)), Fin 0).
Proof.
  intros HH Hs Hx HN. split; [|split].
  - apply evaluate_const_b64; try assumption; try lia.
    apply naive_forecast_const. apply b64_mul_one.
  - apply evaluate_const_b64; try assumption; try lia.
    apply naive_seasonal_forecast_const.
  - apply evaluate_const_fin; try assumption; try lia.
    apply avg_forecast_const.
Qed.

Lemma C7_constant_series_zero_error_witness :
  evaluate naive_forecast 2 (repeat tenth 5) = Ok ([0%float], 0%float) /\
  evaluate naive_seasonal_forecast 2 (repeat tenth 5)
  = Ok ([0%float], 0%float) /\
  evaluate avg_forecast 2 (repeat (Fin (1 / 10)) 5) = Ok ([Fin 0], Fin 0).
Proof.
  apply (@C7_constant_series_zero_error tenth (1 / 10) 2 5);
    [lia | vm_compute; lia | vm_compute; reflexivity | vm_compute; reflexivity].
Defined.

(** * Further properties of the notebook's code *)

(** ** The splits as a rolling origin *)

Lemma firstn_succ_nth {A} (l : list A) (j : nat) (d : A) :
  (j < length l)%nat -> firstn (S j) l = firstn j l ++ [nth j l d].
Proof.
  revert j; induction l as [|x l IH]; intros j Hj; simpl in Hj; [lia|].
  destruct j as [|j]; [reflexivity|].
  change (x :: firstn (S j) l = x :: (firstn j l ++ [nth j l d])).
  f_equal. apply IH. lia.
Qed.

Lemma tests_tile_prefix (H : Z) (N j : nat) :
  (0 < H)%Z -> (j <= length (splits H N))%nat ->
  concat (map snd (rev (firstn j (splits H N))))
  = window (Z.of_nat N - H * Z.of_nat j) (Z.of_nat N).
Proof.
  intros HH. induction j as [|j IH]; intros Hj.
  - simpl firstn. simpl. unfold window.
    now replace (Z.to_nat (Z.of_nat N - (Z.of_nat N - H * 0))) with 0%nat by lia.
  - pose proof (@split_number_bound H N j HH ltac:(lia)) as Hb.
    pose proof (Z.mod_pos_bound (Z.of_nat N) H HH) as Hm.
    rewrite (firstn_succ_nth _ ([], [])) by lia.
    rewrite rev_app_distr. simpl rev. simpl app. simpl map. simpl concat.
    rewrite IH by lia. rewrite nth_split by lia. simpl snd.
    rewrite window_app by lia. f_equal. lia.
Qed.

(** X1. The test windows, read from the oldest split to the newest, tile
    the positions [[H + N mod H, N)]: every row from position [H + N mod H]
    on is in exactly one test window, and the first [H + N mod H] rows are in
    none.  (When the series is shorter than [2 * H] both sides are empty.) *)
Theorem test_windows_tile (H : Z) (N : nat) :
  (0 < H)%Z ->
  concat (map snd (rev (splits H N)))
  = window (H + Z.of_nat N mod H) (Z.of_nat N).
Proof.
  intros HH.
  pose proof (@tests_tile_prefix H N (length (splits H N)) HH (le_n _)) as E.
  rewrite firstn_all in E. rewrite E. rewrite length_splits by assumption.
  pose proof (Z.div_mod (Z.of_nat N) H ltac:(lia)) as Ed.
  pose proof (Z.mod_pos_bound (Z.of_nat N) H HH) as Hm.
  assert (0 <= Z.of_nat N / H)%Z as Hq by (apply Z.div_pos; lia).
  destruct (Z.le_gt_cases 1 (Z.of_nat N / H)) as [H1|H0].
  - f_equal. rewrite Z2Nat.id by lia. lia.
  - assert (Z.of_nat N / H = 0)%Z as Eq by lia. rewrite Eq in *.
    unfold window. simpl (Z.to_nat (0 - 1)).
    replace (Z.to_nat (Z.of_nat N - (Z.of_nat N - H * Z.of_nat 0))) with 0%nat by lia.
    now replace (Z.to_nat (Z.of_nat N - (H + Z.of_nat N mod H))) with 0%nat by lia.
Qed.

Lemma test_windows_tile_witness :
  concat (map snd (rev (splits 3 14))) = [5; 6; 7; 8; 9; 10; 11; 12; 13]%nat.
Proof.
  rewrite (@test_windows_tile 3 14 ltac:(lia)). reflexivity.
Defined.

(** X2. Going one split back in time removes exactly one test block from
    the training window: the training window of split [k] is the training
    window of split [k + 1] followed by the test window of split [k + 1]. *)
Theorem train_windows_nested (H : Z) (N k : nat) :
  (0 < H)%Z ->
  (S k < length (splits H N))%nat ->
  fst (nth k (splits H N) ([], []))
  = fst (nth (S k) (splits H N) ([], []))
    ++ snd (nth (S k) (splits H N) ([], [])).
Proof.
  intros HH Hk.
  pose proof (@split_number_bound H N (S k) HH Hk) as Hb.
  pose proof (Z.mod_pos_bound (Z.of_nat N) H HH) as Hm.
  rewrite !nth_split by lia. simpl fst; simpl snd.
  rewrite window_app by lia. f_equal. lia.
Qed.

Lemma train_windows_nested_witness :
  fst (nth 0 (splits 2 7) ([], []))
  = fst (nth 1 (splits 2 7) ([], [])) ++ snd (nth 1 (splits 2 7) ([], [])).
Proof.
  apply (@train_windows_nested 2 7 0); [lia | vm_compute; lia].
Defined.

(** X3. The cell peels one test block off the end and goes on with the
    rest: for a series of [N >= H] rows extended by [H] more, the first split
    trains on the [N] old rows and tests on the [H] new ones, and the other
    splits are those of the [N] old rows. *)
Theorem splits_peel_last_block (H : Z) (N : nat) :
  (0 < H <= Z.of_nat N)%Z ->
  splits H (N + Z.to_nat H)
  = (window 0 (Z.of_nat N), window (Z.of_nat N) (Z.of_nat N + H))
    :: splits H N.
Proof.
  intros HH.
  assert (Z.of_nat (N + Z.to_nat H) / H = Z.of_nat N / H + 1)%Z as Eq.
  { replace (Z.of_nat (N + Z.to_nat H)) with (Z.of_nat N + 1 * H)%Z by lia.
    apply Z.div_add. lia. }
  assert (1 <= Z.of_nat N / H)%Z as Hq by (apply Z.div_le_lower_bound; lia).
  assert (length (splits H (N + Z.to_nat H)) = S (length (splits H N))) as El.
  { rewrite !length_splits by lia. rewrite Eq. lia. }
  apply (nth_ext _ _ ([], []) ([], [])); [exact El|].
  intros k Hk. rewrite nth_split by lia.
  destruct k as [|k].
  - simpl nth. f_equal; f_equal; lia.
  - simpl nth. rewrite nth_split by lia. f_equal; f_equal; lia.
Qed.

Lemma splits_peel_last_block_witness :
  splits 2 (5 + Z.to_nat 2) = ([0; 1; 2; 3; 4], [5; 6])%nat :: splits 2 5.
Proof.
  exact (@splits_peel_last_block 2 5 ltac:(lia)).
Defined.

(** X4. Why the cell treats [i = 1] apart: the general formula
    [index[-H*i:-H*(i-1)]] at [i = 1] asks for [index[-H:0]], which is empty
    whatever the index, whereas the branch taken, [index[-H:]], gives the
    last [H] labels. *)
Theorem first_test_window_needs_its_branch (H : Z) (N : nat) :
  (0 < H <= Z.of_nat N)%Z ->
  slice (index N) (Some (- H * 1)%Z) (Some (- H * (1 - 1))%Z) = [] /\
  cv_test H (index N) 1 = window (Z.of_nat N - H) (Z.of_nat N).
Proof.
  intros HH. split.
  - unfold slice, adjust. rewrite length_index.
    replace (- H * (1 - 1))%Z with 0%Z by lia.
    destruct (Z.ltb_spec (- H * 1) 0); [|lia].
    change (0 <? 0)%Z with false. cbv iota.
    replace (Z.to_nat (Z.min 0 (Z.of_nat N) - Z.max (- H * 1 + Z.of_nat N) 0))
      with 0%nat by lia.
    reflexivity.
  - unfold cv_test. change (1 <? 1)%Z with false. cbv iota.
    now apply slice_index_suffix.
Qed.

Lemma first_test_window_needs_its_branch_witness :
  slice (index 7) (Some (- 2 * 1)%Z) (Some (- 2 * (1 - 1))%Z) = [] /\
  cv_test 2 (index 7) 1 = [5; 6]%nat.
Proof.
  exact (@first_test_window_needs_its_branch 2 7 ltac:(lia)).
Defined.

(** ** The error of a sequence against itself *)

(** X6. In binary64, [get_rmse] of a sequence of finite numbers, not
    empty, against itself is exactly zero: every residual [x - x] is [0.0],
    and so are the squares, their sum, the mean and its root. *)
Theorem get_rmse_of_itself_is_zero (x : list float) :
  x <> [] ->
  Forall (fun v => is_finite v = true) x ->
  (Z.of_nat (length x) < 2 ^ 63)%Z ->
  get_rmse x x = Ok 0%float.
Proof. intros Hne Hfin Hlen. now apply b64_get_rmse_self. Qed.

Lemma get_rmse_of_itself_is_zero_witness :
  get_rmse [tenth; (-3)%float; 0x1p600%float]
           [tenth; (-3)%float; 0x1p600%float] = Ok 0%float.
Proof.
  apply (@get_rmse_of_itself_is_zero [tenth; (-3)%float; 0x1p600%float]).
  - discriminate.
  - repeat constructor.
  - simpl. lia.
Defined.

(** ** The forecasters at the edges *)

(** X8. For an empty test window the average and the naive forecaster
    return an empty forecast, but the seasonal-naive forecaster returns the
    whole training window: [-len(test)] is [-0], and [l[-0:]] is [l[0:]]. *)
Theorem forecasts_for_an_empty_test {V : Type} {AV : Arith V} (train : list V) :
  train <> [] ->
  avg_forecast train [] = Ok [] /\
  naive_forecast train [] = Ok [] /\
  naive_seasonal_forecast train [] = Ok train.
Proof.
  intros Hne. split; [reflexivity|]. split.
  - unfold naive_forecast. now rewrite (item_last (last train fzero) Hne).
  - unfold naive_seasonal_forecast, slice, adjust. simpl.
    rewrite Z.min_l by lia. rewrite Z.sub_0_r, Nat2Z.id.
    now rewrite firstn_all.
Qed.

Lemma forecasts_for_an_empty_test_witness :
  avg_forecast [1; 2; 3]%float [] = Ok [] /\
  naive_forecast [1; 2; 3]%float [] = Ok [] /\
  naive_seasonal_forecast [1; 2; 3]%float [] = Ok [1; 2; 3]%float.
Proof.
  apply (@forecasts_for_an_empty_test _ Binary64 [1; 2; 3]%float).
  discriminate.
Defined.

(** ** The loops never raise *)

Section LoopsRun.

Context {V : Type} {AV : Arith V}.

Lemma get_rmse_same_length (pred actual : list V) :
  length pred = length actual -> exists e, get_rmse pred actual = Ok e.
Proof.
  intros E. unfold get_rmse, residuals. rewrite (proj2 (Nat.eqb_eq _ _) E).
  eexists. reflexivity.
Qed.

Lemma split_rmse_rows (forecast : list V -> list V -> result (list V))
    (H : Z) (frame : list V) (k : nat) :
  (0 < H)%Z -> (k < length (splits H (length frame)))%nat ->
  split_rmse forecast frame (nth k (splits H (length frame)) ([], []))
  = (pred <- forecast (train_rows H frame k) (test_rows H frame k) ;;
     get_rmse pred (test_rows H frame k)).
Proof.
  intros HH Hk. destruct (@iloc_split V H frame k HH Hk) as [Etr Ete].
  unfold split_rmse. now rewrite Etr, Ete.
Qed.

Lemma rows_fit (H : Z) (frame : list V) (k : nat) :
  (0 < H)%Z -> (k < length (splits H (length frame)))%nat ->
  (1 <= length (test_rows H frame k) <= length (train_rows H frame k))%nat.
Proof.
  intros HH Hk.
  pose proof (@split_number_bound H (length frame) k HH Hk) as Hb.
  pose proof (Z.mod_pos_bound (Z.of_nat (length frame)) H HH) as Hm.
  pose proof (@length_train_rows V H frame k HH Hk).
  pose proof (@length_test_rows V H frame k HH Hk).
  lia.
Qed.

Lemma fits_runs_all_splits (forecast : list V -> list V -> result (list V))
    (H : Z) (frame : list V) :
  fits_test forecast -> (0 < H)%Z -> runs_all_splits forecast H frame.
Proof.
  intros Hf HH.
  set (g := fun ij => match split_rmse forecast frame ij with
                      | Ok e => e
                      | Raise _ => fzero
                      end).
  assert (forall k, (k < length (splits H (length frame)))%nat ->
            exists pred,
              forecast (train_rows H frame k) (test_rows H frame k) = Ok pred /\
              get_rmse pred (test_rows H frame k)
              = Ok (g (nth k (splits H (length frame)) ([], [])))) as Hk.
  { intros k Hk.
    destruct (Hf _ _ (rows_fit frame HH Hk)) as (pred & Ep & Lp).
    destruct (get_rmse_same_length _ _ Lp) as (e & Ee).
    exists pred. split; [assumption|].
    unfold g. rewrite split_rmse_rows, Ep by assumption. cbn [bind].
    now rewrite Ee. }
  exists (map g (splits H (length frame))). split; [|split].
  - unfold evaluate, cv_rmses.
    rewrite (@fold_rmse_body _ _ forecast frame g); [reflexivity|].
    intros ij Hin. destruct (In_nth _ _ ([], []) Hin) as (k & Hlt & <-).
    destruct (Hk k Hlt) as (pred & Ep & Ee).
    rewrite split_rmse_rows, Ep by assumption. exact Ee.
  - apply length_map.
  - intros k d Hlt. rewrite length_map in Hlt.
    rewrite (nth_indep _ d (g ([], []))) by now rewrite length_map.
    rewrite map_nth. now apply Hk.
Qed.

Lemma avg_forecast_fits : fits_test (@avg_forecast V AV).
Proof.
  intros train test _. eexists. split; [reflexivity|].
  unfold scale, np_ones. now rewrite length_map, repeat_length.
Qed.

Lemma naive_forecast_fits : fits_test (@naive_forecast V AV).
Proof.
  intros train test Hlen. unfold naive_forecast.
  rewrite (@item_last _ train (last train fzero))
    by (destruct train; simpl in *; [lia|discriminate]).
  eexists. split; [reflexivity|].
  unfold scale, np_ones. now rewrite length_map, repeat_length.
Qed.

Lemma naive_seasonal_forecast_fits : fits_test (@naive_seasonal_forecast V).
Proof.
  intros train test Hlen.
  destruct (@seasonal_naive_cycle V train test) as (pred & Ep & Lp & _);
    [lia | lia |].
  now exists pred.
Qed.

End LoopsRun.

(** X10. For a horizon [H >= 1] none of the three loops ever raises,
    whatever the series and the arithmetic: each returns one error for each
    split, the error of split [k] being [get_rmse] of the forecast made from
    the rows [[0, N - H*(k+1))] against the rows [[N - H*(k+1), N - H*k)],
    and [np.mean] is taken over exactly these errors. *)
Theorem loops_run_all_splits {V : Type} {AV : Arith V} (H : Z) (frame : list V) :
  (1 <= H)%Z ->
  runs_all_splits avg_forecast H frame /\
  runs_all_splits naive_forecast H frame /\
  runs_all_splits naive_seasonal_forecast H frame.
Proof.
  intros HH. repeat split; apply fits_runs_all_splits; try lia.
  - apply avg_forecast_fits.
  - apply naive_forecast_fits.
  - apply naive_seasonal_forecast_fits.
Qed.

Lemma loops_run_all_splits_witness :
  runs_all_splits avg_forecast 2 [1; 2; 3; 4; 5; 6; 7]%float /\
  runs_all_splits naive_forecast 2 [1; 2; 3; 4; 5; 6; 7]%float /\
  runs_all_splits naive_seasonal_forecast 2 [1; 2; 3; 4; 5; 6; 7]%float.
Proof.
  apply (@loops_run_all_splits _ Binary64 2 [1; 2; 3; 4; 5; 6; 7]%float). lia.
Defined.

(** ** The loops on finite values, in exact arithmetic *)

Section FiniteSeries.

Local Open Scope R_scope.

Lemma train_rows_map_fin (H : Z) (frame : list R) (k : nat) :
  train_rows H (map Fin frame) k = map Fin (train_rows H frame k).
Proof. unfold train_rows. now rewrite length_map, firstn_map. Qed.

Lemma test_rows_map_fin (H : Z) (frame : list R) (k : nat) :
  test_rows H (map Fin frame) k = map Fin (test_rows H frame k).
Proof. unfold test_rows. now rewrite length_map, skipn_map, firstn_map. Qed.

Lemma naive_seasonal_forecast_fin (train test : list R) :
  (1 <= length test <= length train)%nat ->
  naive_seasonal_forecast (map Fin train) (map Fin test)
  = Ok (map Fin (skipn (length train - length test) train)).
Proof.
  intros Hlen. unfold naive_seasonal_forecast.
  rewrite slice_tail by (rewrite !length_map; lia).
  now rewrite !length_map, skipn_map.
Qed.

Lemma Rsum_nonneg (l : list R) : Forall (fun e => 0 <= e) l -> 0 <= Rsum l.
Proof.
  induction 1 as [|x l Hx _ IH]; unfold Rsum in *; simpl; lra.
Qed.

Lemma evaluate_all_zero forecast (H : Z) (frame : list R) :
  (forall k, (k < length (splits H (length frame)))%nat ->
     split_rmse forecast (map Fin frame)
       (nth k (splits H (length frame)) ([], [])) = Ok (Fin 0)) ->
  (1 <= length (splits H (length frame)))%nat ->
  evaluate forecast H (map Fin frame)
  = Ok (repeat (Fin 0) (length (splits H (length frame))), Fin 0).
Proof.
  intros Hz Hs. unfold evaluate, cv_rmses. rewrite length_map.
  rewrite (@fold_rmse_body _ _ forecast _ (fun _ => Fin 0)).
  - cbn [app bind]. rewrite map_const. do 2 f_equal.
    rewrite (repeat_fin 0), np_mean_fin by (apply repeat_neq_nil; lia).
    now rewrite arithmetic_mean_repeat by lia.
  - intros ij Hin. destruct (In_nth _ _ ([], []) Hin) as (k & Hlt & <-).
    now apply Hz.
Qed.

Lemma seasonal_rows_periodic (H : Z) (frame : list R) (k : nat) :
  (0 < H)%Z -> (k < length (splits H (length frame)))%nat ->
  (forall p, (Z.of_nat (length frame) mod H <= Z.of_nat p)%Z ->
     (p + Z.to_nat H < length frame)%nat ->
     nth p frame 0 = nth (p + Z.to_nat H) frame 0) ->
  skipn (length (train_rows H frame k) - length (test_rows H frame k))
        (train_rows H frame k)
  = test_rows H frame k.
Proof.
  intros HH Hk Hper.
  pose proof (@split_number_bound H (length frame) k HH Hk) as Hb.
  pose proof (Z.mod_pos_bound (Z.of_nat (length frame)) H HH) as Hm.
  pose proof (@length_train_rows R H frame k HH Hk) as Ltr.
  pose proof (@length_test_rows R H frame k HH Hk) as Lte.
  apply (nth_ext _ _ 0 0).
  - rewrite length_skipn. lia.
  - intros i Hi. rewrite length_skipn in Hi.
    rewrite nth_skipn. unfold train_rows at 2. unfold test_rows at 2.
    rewrite !nth_firstn, nth_skipn.
    destruct (Nat.ltb_spec
                (length (train_rows H frame k) - length (test_rows H frame k) + i)
                (Z.to_nat (Z.of_nat (length frame) - H * (Z.of_nat k + 1))));
      [|lia].
    destruct (Nat.ltb_spec i (Z.to_nat H)); [|lia].
    rewrite Hper by lia. f_equal. lia.
Qed.

End FiniteSeries.

Lemma get_rmse_zero_of_equal (l : list R) :
  l <> [] -> get_rmse (map Fin l) (map Fin l) = Ok (Fin 0).
Proof.
  intros Hne. rewrite get_rmse_fin by auto.
  now rewrite Rsum_sq_residuals_same, Rdiv_0_l, sqrt_0.
Qed.

(** X13. The seasonal-naive loop is exact on a series that repeats with
    period [H]: if every value past the [N mod H] leftover rows equals the
    value [H] rows later, every error of the seasonal-naive loop is zero and
    so is their mean (exact arithmetic, at least one split). *)
Theorem seasonal_naive_exact_on_periodic (H : Z) (frame : list R) :
  (1 <= H)%Z ->
  (1 <= length (splits H (length frame)))%nat ->
  (forall p, (Z.of_nat (length frame) mod H <= Z.of_nat p)%Z ->
     (p + Z.to_nat H < length frame)%nat ->
     nth p frame 0%R = nth (p + Z.to_nat H) frame 0%R) ->
  evaluate naive_seasonal_forecast H (map Fin frame)
  = Ok (repeat (Fin 0) (length (splits H (length frame))), Fin 0).
Proof.
  intros HH Hs Hper. apply evaluate_all_zero; [|assumption].
  intros k Hk.
  pose proof (@split_rmse_rows xreal Exact naive_seasonal_forecast H
                (map Fin frame) k ltac:(lia)) as E.
  rewrite length_map in E. rewrite (E Hk).
  rewrite train_rows_map_fin, test_rows_map_fin.
  pose proof (@rows_fit R H frame k ltac:(lia) Hk) as Hfit.
  rewrite naive_seasonal_forecast_fin by assumption. cbn [bind].
  rewrite seasonal_rows_periodic by (assumption || lia).
  apply get_rmse_zero_of_equal.
  destruct (test_rows H frame k); simpl in *; [lia|discriminate].
Qed.

Lemma seasonal_naive_exact_on_periodic_witness :
  evaluate naive_seasonal_forecast 2 (map Fin [7; 1; 2; 1; 2; 1; 2]%R)
  = Ok (repeat (Fin 0) (length (splits 2 7)), Fin 0).
Proof.
  apply (@seasonal_naive_exact_on_periodic 2 [7; 1; 2; 1; 2; 1; 2]%R);
    [lia | vm_compute; lia |].
  intros [|[|[|[|[|p]]]]] Hm Hp; simpl in *; try reflexivity; try lia.
  vm_compute in Hm. elim Hm. reflexivity.
Defined.

(** ** Frames, labels and the marathon split *)

Lemma map_fst_combine {A B} (l : list A) (l' : list B) :
  length l = length l' -> map fst (combine l l') = l.
Proof.
  revert l'; induction l as [|x l IH]; intros [|y l'] E; simpl in *;
    try discriminate; [reflexivity|].
  f_equal. apply IH. now injection E.
Qed.

Lemma map_snd_combine {A B} (l : list A) (l' : list B) :
  length l = length l' -> map snd (combine l l') = l'.
Proof.
  revert l'; induction l as [|x l IH]; intros [|y l'] E; simpl in *;
    try discriminate; [reflexivity|].
  f_equal. apply IH. now injection E.
Qed.

Lemma labels_read_csv {A} (rows : list A) :
  labels (read_csv rows) = index (length rows).
Proof. apply map_fst_combine. apply length_seq. Qed.

Lemma column_read_csv {A} (rows : list A) : column (read_csv rows) = rows.
Proof. apply map_snd_combine. apply length_seq. Qed.

Lemma length_read_csv {A} (rows : list A) :
  length (read_csv rows) = length rows.
Proof.
  unfold read_csv. rewrite length_combine, length_seq. apply Nat.min_id.
Qed.

Lemma mem_label_true (l : nat) (ls : list nat) :
  mem_label l ls = true <-> In l ls.
Proof.
  unfold mem_label. rewrite existsb_exists. split.
  - intros (x & Hin & E). apply Nat.eqb_eq in E. now subst.
  - intros Hin. exists l. split; [assumption|apply Nat.eqb_refl].
Qed.

Lemma mem_label_false (l : nat) (ls : list nat) :
  mem_label l ls = false <-> ~ In l ls.
Proof.
  rewrite <- mem_label_true. now destruct (mem_label l ls).
Qed.

Lemma filter_none {A} (p : A -> bool) (l : list A) :
  (forall x, In x l -> p x = false) -> filter p l = [].
Proof.
  induction l as [|x l IH]; intros Hp; simpl; [reflexivity|].
  rewrite (Hp x (or_introl eq_refl)). apply IH. intros; apply Hp; now right.
Qed.

Lemma filter_every {A} (p : A -> bool) (l : list A) :
  (forall x, In x l -> p x = true) -> filter p l = l.
Proof.
  induction l as [|x l IH]; intros Hp; simpl; [reflexivity|].
  rewrite (Hp x (or_introl eq_refl)). f_equal.
  apply IH. intros; apply Hp; now right.
Qed.

(** Dropping the labels of the first [n] rows of a frame just read leaves
    the other rows. *)
Lemma drop_first_rows {A} (rows : list A) (n : nat) :
  (n <= length rows)%nat ->
  drop (read_csv rows) (labels (firstn n (read_csv rows)))
  = Some (skipn n (read_csv rows)).
Proof.
  intros Hn.
  assert (labels (firstn n (read_csv rows)) = seq 0 n) as El.
  { unfold labels. rewrite <- firstn_map. fold (labels (read_csv rows)).
    rewrite labels_read_csv. now apply firstn_seq_le. }
  assert (labels (skipn n (read_csv rows)) = seq n (length rows - n)) as Es.
  { unfold labels. rewrite <- skipn_map. fold (labels (read_csv rows)).
    rewrite labels_read_csv. unfold index. now rewrite skipn_seq. }
  unfold drop. rewrite El.
  replace (forallb _ (seq 0 n)) with true.
  2:{ symmetry. apply forallb_forall. intros l Hl. apply mem_label_true.
      rewrite labels_read_csv. unfold index. apply in_seq.
      apply in_seq in Hl. lia. }
  f_equal.
  rewrite <- (firstn_skipn n (read_csv rows)) at 1.
  rewrite filter_app, filter_none, filter_every; [reflexivity| |].
  - intros row Hin. apply negb_true_iff, mem_label_false.
    intros Hl. apply in_seq in Hl.
    assert (In (fst row) (labels (skipn n (read_csv rows)))) as Hr
      by now apply in_map.
    rewrite Es in Hr. apply in_seq in Hr. lia.
  - intros row Hin. apply negb_false_iff, mem_label_true.
    assert (In (fst row) (labels (firstn n (read_csv rows)))) as Hr
      by now apply in_map.
    now rewrite El in Hr.
Qed.

Lemma holdout_split_firstn {A} (T : Z) (rows : list A) :
  holdout_split T (read_csv rows)
  = Some (firstn (Z.to_nat (adjust (Z.of_nat (length rows)) (- T)))
                 (read_csv rows),
          skipn (Z.to_nat (adjust (Z.of_nat (length rows)) (- T)))
                (read_csv rows)).
Proof.
  unfold holdout_split, slice. rewrite length_read_csv.
  rewrite Z.sub_0_r. simpl skipn.
  rewrite drop_first_rows; [reflexivity|].
  unfold adjust. destruct (Z.ltb_spec (- T) 0); lia.
Qed.

(** X14. The marathon split keeps every row once: for a test length
    [1 <= T <= N] the training frame is the first [N - T] rows of the frame
    and the test frame the last [T] rows, in their order; [drop] finds every
    label and raises nothing. *)
Theorem holdout_split_last_rows {A : Type} (T : Z) (rows : list A) :
  (1 <= T <= Z.of_nat (length rows))%Z ->
  exists train test,
    holdout_split T (read_csv rows) = Some (train, test) /\
    column train = firstn (length rows - Z.to_nat T) rows /\
    column test = skipn (length rows - Z.to_nat T) rows /\
    Z.of_nat (length test) = T /\
    train ++ test = read_csv rows.
Proof.
  intros HT. rewrite holdout_split_firstn.
  assert (Z.to_nat (adjust (Z.of_nat (length rows)) (- T))
          = (length rows - Z.to_nat T)%nat) as ->.
  { unfold adjust. destruct (Z.ltb_spec (- T) 0); lia. }
  eexists _, _. split; [reflexivity|].
  unfold column. rewrite <- firstn_map, <- skipn_map.
  fold (column (read_csv rows)). rewrite column_read_csv.
  repeat split.
  - rewrite length_skipn, length_read_csv. lia.
  - apply firstn_skipn.
Qed.

Lemma holdout_split_last_rows_witness :
  exists train test,
    holdout_split 2 (read_csv [10; 20; 30; 40; 50]%Z) = Some (train, test) /\
    column train = [10; 20; 30]%Z /\
    column test = [40; 50]%Z /\
    Z.of_nat (length test) = 2%Z /\
    train ++ test = read_csv [10; 20; 30; 40; 50]%Z.
Proof.
  apply (@holdout_split_last_rows Z 2 [10; 20; 30; 40; 50]%Z). simpl. lia.
Defined.

(** X15. A test length of [0], or one that is not below the number of
    rows, leaves no training row: [iloc[:-0]] is [iloc[:0]], so the training
    frame is empty and every row is a test row; the naive cell then raises
    [IndexError] at [iloc[-1]], whatever the numbers. *)
Theorem holdout_split_without_training_rows {V : Type} {AV : Arith V}
    (T : Z) (rows : list V) :
  T = 0%Z \/ (Z.of_nat (length rows) <= T)%Z ->
  holdout_split T (read_csv rows) = Some ([], read_csv rows) /\
  naive_method_rmse (column (@nil (nat * V))) (column (read_csv rows))
  = Raise IndexError.
Proof.
  intros HT. split.
  - rewrite holdout_split_firstn.
    assert (Z.to_nat (adjust (Z.of_nat (length rows)) (- T)) = 0%nat) as ->.
    { unfold adjust. destruct (Z.ltb_spec (- T) 0); lia. }
    reflexivity.
  - unfold naive_method_rmse. simpl column at 1. now rewrite item_nil.
Qed.

Lemma holdout_split_without_training_rows_witness :
  holdout_split 0 (read_csv [1; 2; 3]%float)
  = Some ([], read_csv [1; 2; 3]%float) /\
  naive_method_rmse (column (@nil (nat * float)))
                    (column (read_csv [1; 2; 3]%float))
  = Raise IndexError.
Proof.
  apply (@holdout_split_without_training_rows _ Binary64 0 [1; 2; 3]%float).
  now left.
Defined.

(** ** The marathon cells against the helper functions *)

Section HoldoutExact.

Local Open Scope R_scope.

Lemma holdout_residuals_fin (m : R) (test : list R) :
  map (fun r : xreal => fmul r r)
      (map (fun y : xreal => fsub y (Fin m)) (map Fin test))
  = map Fin (map (fun y => (y - m) * (y - m)) test).
Proof. induction test as [|y test IH]; simpl; [reflexivity|now f_equal]. Qed.

Lemma Rsum_squares_nonneg (m : R) (test : list R) :
  0 <= Rsum (map (fun y => (y - m) * (y - m)) test).
Proof.
  apply Rsum_nonneg. apply Forall_forall. intros e Hin.
  apply in_map_iff in Hin. destruct Hin as (y & <- & _).
  pose proof (Rle_0_sqr (y - m)) as Hs. exact Hs.
Qed.

Lemma holdout_rmse_fin (m : R) (test : list R) :
  test <> [] ->
  holdout_rmse (Fin m) (map Fin test)
  = Fin (R_sqrt.sqrt (Rsum (map (fun y => (y - m) * (y - m)) test)
                      / INR (length test))).
Proof.
  intros Hne. unfold holdout_rmse, pd_sum.
  rewrite holdout_residuals_fin, filter_fin, np_sum_fin, length_map.
  change (xsqrt (xdiv (Fin (Rsum (map (fun y => (y - m) * (y - m)) test)))
                      (Fin (INR (length test))))
          = Fin (R_sqrt.sqrt (Rsum (map (fun y => (y - m) * (y - m)) test)
                              / INR (length test)))).
  pose proof (INR_length_neq_0 Hne) as Hn.
  pose proof (pos_INR (length test)) as Hp.
  rewrite xdiv_fin by assumption. apply xsqrt_fin.
  apply Rmult_le_pos; [apply Rsum_squares_nonneg|].
  apply Rlt_le, Rinv_0_lt_compat. lra.
Qed.

Lemma Rsum_sq_residuals_repeat (m : R) (test : list R) :
  Rsum (sq_residuals (repeat m (length test)) test)
  = Rsum (map (fun y => (y - m) * (y - m)) test).
Proof.
  unfold sq_residuals, Rsum.
  induction test as [|y test IH]; simpl; [reflexivity|].
  rewrite IH. ring.
Qed.

Lemma get_rmse_of_constant (m : R) (test : list R) :
  test <> [] ->
  get_rmse (repeat (Fin m) (length test)) (map Fin test)
  = Ok (holdout_rmse (Fin m) (map Fin test)).
Proof.
  intros Hne. rewrite repeat_fin.
  rewrite get_rmse_fin;
    [|apply repeat_length
     |destruct test; [congruence|discriminate]].
  rewrite Rsum_sq_residuals_repeat, repeat_length.
  now rewrite holdout_rmse_fin.
Qed.

End HoldoutExact.

(** X16. The marathon cells and the helper functions of the measles part
    measure the same error: on finite values, a training and a test column
    that are not empty, the RMSE written out in the cell of the average
    method is [get_rmse] of [avg_forecast], and that of the cell of the naive
    method is [get_rmse] of [naive_forecast] (exact arithmetic). *)
Theorem holdout_cells_agree_with_helpers (train test : list R) :
  train <> [] -> test <> [] ->
  (pred <- avg_forecast (map Fin train) (map Fin test) ;;
   get_rmse pred (map Fin test))
  = Ok (avg_method_rmse (map Fin train) (map Fin test)) /\
  (pred <- naive_forecast (map Fin train) (map Fin test) ;;
   get_rmse pred (map Fin test))
  = naive_method_rmse (map Fin train) (map Fin test).
Proof.
  intros Htr Hte. split.
  - rewrite avg_forecast_fin by assumption. cbn [bind].
    rewrite length_map, get_rmse_of_constant by assumption.
    unfold avg_method_rmse. now rewrite pd_mean_fin.
  - rewrite naive_forecast_fin by assumption. cbn [bind].
    rewrite length_map, get_rmse_of_constant by assumption.
    unfold naive_method_rmse.
    rewrite (@item_last _ (map Fin train) (Fin 0))
      by (destruct train; [congruence|discriminate]).
    cbn [bind]. now rewrite last_map_fin.
Qed.

Lemma holdout_cells_agree_with_helpers_witness :
  (pred <- avg_forecast (map Fin [1; 2; 3]%R) (map Fin [4; 6]%R) ;;
   get_rmse pred (map Fin [4; 6]%R))
  = Ok (avg_method_rmse (map Fin [1; 2; 3]%R) (map Fin [4; 6]%R)) /\
  (pred <- naive_forecast (map Fin [1; 2; 3]%R) (map Fin [4; 6]%R) ;;
   get_rmse pred (map Fin [4; 6]%R))
  = naive_method_rmse (map Fin [1; 2; 3]%R) (map Fin [4; 6]%R).
Proof.
  apply (@holdout_cells_agree_with_helpers [1; 2; 3]%R [4; 6]%R);
    discriminate.
Defined.

(** ** The measles split by date *)

Lemma filter_filter_and {A} (p q : A -> bool) (l : list A) :
  filter p (filter q l) = filter (fun x => p x && q x) l.
Proof.
  induction l as [|x l IH]; simpl; [reflexivity|].
  destruct (q x); simpl; rewrite ?andb_true_r, ?andb_false_r.
  - destruct (p x); now rewrite IH.
  - exact IH.
Qed.

Lemma unique_label {A} (f : list (nat * A)) (r r' : nat * A) :
  NoDup (labels f) -> In r f -> In r' f -> fst r = fst r' -> r = r'.
Proof.
  induction f as [|x f IH]; intros Hnd Hr Hr' E; [contradiction|].
  simpl in Hnd. inversion Hnd as [|? ? Hx Hnd']; subst.
  destruct Hr as [<-|Hr], Hr' as [<-|Hr'].
  - reflexivity.
  - elim Hx. rewrite E. now apply in_map.
  - elim Hx. rewrite <- E. now apply in_map.
  - now apply IH.
Qed.

Lemma NoDup_labels_filter {A} (p : nat * A -> bool) (f : list (nat * A)) :
  NoDup (labels f) -> NoDup (labels (filter p f)).
Proof.
  induction f as [|x f IH]; intros Hnd; simpl; [constructor|].
  simpl in Hnd. inversion Hnd as [|? ? Hx Hnd']; subst.
  destruct (p x); simpl; [|now apply IH].
  constructor; [|now apply IH].
  intros Hin. apply Hx. unfold labels in *. apply in_map_iff in Hin.
  destruct Hin as (y & E & Hy). apply filter_In in Hy.
  rewrite <- E. now apply in_map.
Qed.

Lemma mem_label_filter {A} (p : nat * A -> bool) (f : list (nat * A))
    (row : nat * A) :
  NoDup (labels f) -> In row f ->
  mem_label (fst row) (labels (filter p f)) = p row.
Proof.
  intros Hnd Hin. destruct (p row) eqn:Ep.
  - apply mem_label_true. apply in_map. apply filter_In. now split.
  - apply mem_label_false. intros Hl. unfold labels in Hl.
    apply in_map_iff in Hl. destruct Hl as (row' & E & Hin').
    apply filter_In in Hin'. destruct Hin' as [Hin' Ep'].
    rewrite (unique_label f row' row Hnd Hin' Hin E) in Ep'. congruence.
Qed.

(** Dropping the labels of the rows that pass a test leaves the rows that
    fail it, when no label is used twice. *)
Lemma drop_filter {A} (p : nat * A -> bool) (f : list (nat * A)) :
  NoDup (labels f) ->
  drop f (labels (filter p f)) = Some (filter (fun row => negb (p row)) f).
Proof.
  intros Hnd. unfold drop.
  replace (forallb _ (labels (filter p f))) with true.
  2:{ symmetry. apply forallb_forall. intros l Hl. apply mem_label_true.
      unfold labels in *. apply in_map_iff in Hl.
      destruct Hl as (row & <- & Hin). apply filter_In in Hin.
      now apply in_map. }
  f_equal. apply filter_ext_in. intros row Hin.
  now rewrite mem_label_filter.
Qed.

Lemma NoDup_labels_read_csv {A} (rows : list A) :
  NoDup (labels (read_csv rows)).
Proof. rewrite labels_read_csv. apply seq_NoDup. Qed.

Lemma measles_split_eq {A : Type} (d1963 d1961 : Z) (rows : list (Z * A)) :
  measles_split d1963 d1961 (read_csv rows)
  = Some (filter (fun row => (fst (snd row) <? d1961)%Z)
                 (loc_before d1963 (read_csv rows)),
          filter (fun row => negb (fst (snd row) <? d1961)%Z)
                 (loc_before d1963 (read_csv rows))).
Proof.
  unfold measles_split. unfold loc_before at 2 3.
  rewrite drop_filter; [reflexivity|].
  apply NoDup_labels_filter, NoDup_labels_read_csv.
Qed.

(** X17. The measles split sends each row dated before [d1963] to exactly
    one side, whatever the order of the rows: the training frame is the rows
    dated before [d1961], the test frame the rows dated [d1961] or later,
    both in the order of the file; [drop] finds every label and raises
    nothing. *)
Theorem measles_split_by_date {A : Type} (d1963 d1961 : Z)
    (rows : list (Z * A)) :
  measles_split d1963 d1961 (read_csv rows)
  = Some (filter (fun row => (fst (snd row) <? d1961)%Z)
                 (loc_before d1963 (read_csv rows)),
          filter (fun row => negb (fst (snd row) <? d1961)%Z)
                 (loc_before d1963 (read_csv rows))).
Proof. apply measles_split_eq. Qed.

Section SortedFrames.

Context {B : Type} (key : B -> Z).

Lemma StronglySorted_map_filter (q : B -> bool) (l : list B) :
  StronglySorted Z.le (map key l) ->
  StronglySorted Z.le (map key (filter q l)).
Proof.
  induction l as [|x l IH]; intros Hs; simpl; [constructor|].
  simpl in Hs. inversion Hs as [|? ? Hs' Hall]; subst.
  destruct (q x); simpl; [|now apply IH].
  constructor; [now apply IH|].
  apply Forall_forall. intros k Hk. apply in_map_iff in Hk.
  destruct Hk as (y & <- & Hy). apply filter_In in Hy.
  rewrite Forall_forall in Hall. apply Hall. now apply in_map.
Qed.

Lemma filter_below_prefix (d : Z) (l : list B) :
  StronglySorted Z.le (map key l) ->
  filter (fun x => (key x <? d)%Z) l
  = firstn (length (filter (fun x => (key x <? d)%Z) l)) l /\
  filter (fun x => negb (key x <? d)%Z) l
  = skipn (length (filter (fun x => (key x <? d)%Z) l)) l.
Proof.
  induction l as [|x l IH]; intros Hs; simpl; [now split|].
  simpl in Hs. inversion Hs as [|? ? Hs' Hall]; subst.
  destruct (IH Hs') as [IH1 IH2].
  destruct (Z.ltb_spec (key x) d) as [Hlt|Hge]; simpl.
  - split; [now f_equal|assumption].
  - assert (forall y, In y l -> (key y <? d)%Z = false) as Hl.
    { intros y Hy. apply Z.ltb_ge. rewrite Forall_forall in Hall.
      specialize (Hall (key y) (in_map key l y Hy)). lia. }
    rewrite (filter_none _ _ Hl). simpl. split; [reflexivity|].
    f_equal. apply filter_every. intros y Hy. now rewrite (Hl y Hy).
Qed.

End SortedFrames.

Lemma months_read_csv {A} (rows : list (Z * A)) :
  map (fun row : nat * (Z * A) => fst (snd row)) (read_csv rows)
  = map fst rows.
Proof.
  rewrite <- (map_map snd fst). fold (column (read_csv rows)).
  now rewrite column_read_csv.
Qed.

(** X18. When the file lists the months in ascending order, the training
    frame of the measles split is an initial part of the file, so that its
    labels are [0 .. n-1], each the position of its row (what
    [measles_train.iloc[...]] relies on in the cross-validation cells), and
    the test frame is what follows it among the rows before [d1963]. *)
Theorem measles_train_labels_are_positions {A : Type} (d1963 d1961 : Z)
    (rows : list (Z * A)) :
  StronglySorted Z.le (map fst rows) ->
  exists train test,
    measles_split d1963 d1961 (read_csv rows) = Some (train, test) /\
    labels train = index (length train) /\
    column train = firstn (length train) rows /\
    train ++ test = loc_before d1963 (read_csv rows).
Proof.
  intros Hs. rewrite measles_split_eq.
  eexists _, _. split; [reflexivity|].
  set (f := read_csv rows).
  assert (StronglySorted Z.le
            (map (fun row : nat * (Z * A) => fst (snd row)) f)) as Hf
    by (unfold f; now rewrite months_read_csv).
  assert (filter (fun row : nat * (Z * A) => (fst (snd row) <? d1961)%Z)
                 (loc_before d1963 f)
          = loc_before (Z.min d1961 d1963) f) as Etr.
  { unfold loc_before. rewrite filter_filter_and. apply filter_ext.
    intros row. destruct (Z.ltb_spec (fst (snd row)) d1961),
      (Z.ltb_spec (fst (snd row)) d1963),
      (Z.ltb_spec (fst (snd row)) (Z.min d1961 d1963)); simpl; lia. }
  assert (forall n, (n <= length rows)%nat ->
            labels (firstn n f) = index n /\ column (firstn n f) = firstn n rows)
    as Hfirst.
  { intros n Hn. unfold labels, column. rewrite <- !firstn_map.
    fold (labels f). fold (column f). unfold f.
    rewrite labels_read_csv, column_read_csv. split; [|reflexivity].
    now apply firstn_seq_le. }
  split; [|split].
  - rewrite Etr.
    destruct (filter_below_prefix (fun row : nat * (Z * A) => fst (snd row))
                (Z.min d1961 d1963) f Hf) as [E1 _].
    fold (loc_before (Z.min d1961 d1963) f) in E1.
    rewrite E1 at 1. apply Hfirst.
    rewrite <- (length_read_csv rows). fold f. unfold loc_before.
    apply filter_length_le.
  - rewrite Etr.
    destruct (filter_below_prefix (fun row : nat * (Z * A) => fst (snd row))
                (Z.min d1961 d1963) f Hf) as [E1 _].
    fold (loc_before (Z.min d1961 d1963) f) in E1.
    rewrite E1 at 1. apply Hfirst.
    rewrite <- (length_read_csv rows). fold f. unfold loc_before.
    apply filter_length_le.
  - assert (StronglySorted Z.le
              (map (fun row : nat * (Z * A) => fst (snd row))
                   (loc_before d1963 f))) as Hp
      by now apply StronglySorted_map_filter.
    destruct (filter_below_prefix (fun row : nat * (Z * A) => fst (snd row))
                d1961 (loc_before d1963 f) Hp) as [E1 E2].
    rewrite E1, E2. apply firstn_skipn.
Qed.

Lemma measles_train_labels_are_positions_witness :
  exists train test,
    measles_split 5 3 (read_csv [(1, 10); (2, 20); (3, 30); (4, 40); (6, 60)]%Z)
    = Some (train, test) /\
    labels train = index (length train) /\
    column train
    = firstn (length train) [(1, 10); (2, 20); (3, 30); (4, 40); (6, 60)]%Z /\
    train ++ test
    = loc_before 5 (read_csv [(1, 10); (2, 20); (3, 30); (4, 40); (6, 60)]%Z).
Proof.
  apply (@measles_train_labels_are_positions Z 5 3
           [(1, 10); (2, 20); (3, 30); (4, 40); (6, 60)]%Z).
  simpl. repeat constructor; lia.
Defined.

(** ** How the loops compare *)

Section LoopsCompare.

Local Open Scope R_scope.

Lemma fold_rmse_body_ext {V : Type} {AV : Arith V}
    (f f' : list V -> list V -> result (list V)) (frame frame' : list V)
    (l : list (list nat * list nat)) (acc : result (list V)) :
  (forall ij, In ij l -> split_rmse f frame ij = split_rmse f' frame' ij) ->
  fold_left (rmse_body f frame) l acc = fold_left (rmse_body f' frame') l acc.
Proof.
  revert acc; induction l as [|ij l IH]; intros acc Hext; simpl;
    [reflexivity|].
  unfold rmse_body at 2 4. rewrite (Hext ij (or_introl eq_refl)).
  apply IH. intros; apply Hext; now right.
Qed.

Lemma evaluate_ext {V : Type} {AV : Arith V}
    (f f' : list V -> list V -> result (list V)) (H : Z)
    (frame frame' : list V) :
  length frame' = length frame ->
  (forall k, (k < length (splits H (length frame)))%nat ->
     split_rmse f frame (nth k (splits H (length frame)) ([], []))
     = split_rmse f' frame' (nth k (splits H (length frame)) ([], []))) ->
  evaluate f H frame = evaluate f' H frame'.
Proof.
  intros El Hext. unfold evaluate, cv_rmses. rewrite El.
  rewrite (@fold_rmse_body_ext _ _ f f' frame frame'); [reflexivity|].
  intros ij Hin. destruct (In_nth _ _ ([], []) Hin) as (k & Hk & <-).
  now apply Hext.
Qed.

Lemma skipn_last {A} (l : list A) (d : A) :
  l <> [] -> skipn (length l - 1) l = [last l d].
Proof.
  induction l as [|x l IH]; [congruence|]. intros _.
  destruct l as [|y l]; [reflexivity|].
  specialize (IH ltac:(discriminate)).
  simpl length in *. replace (S (S (length l)) - 1)%nat with (S (length l)) by lia.
  replace (S (length l) - 1)%nat with (length l) in IH by lia.
  exact IH.
Qed.

End LoopsCompare.

(** X20. With a horizon of one the seasonal-naive loop is the naive loop:
    the last cycle is the last value, and the two loops return the same
    errors and the same mean (exact arithmetic, finite values). *)
Theorem seasonal_naive_is_naive_at_horizon_one (frame : list R) :
  evaluate naive_seasonal_forecast 1 (map Fin frame)
  = evaluate naive_forecast 1 (map Fin frame).
Proof.
  apply evaluate_ext; [reflexivity|].
  intros k Hk. rewrite length_map in Hk.
  pose proof (@split_rmse_rows xreal Exact naive_seasonal_forecast 1
                (map Fin frame) k ltac:(lia)) as E1.
  pose proof (@split_rmse_rows xreal Exact naive_forecast 1
                (map Fin frame) k ltac:(lia)) as E2.
  rewrite !length_map in *. rewrite (E1 Hk), (E2 Hk).
  rewrite !train_rows_map_fin, !test_rows_map_fin.
  pose proof (@rows_fit R 1 frame k ltac:(lia) Hk) as Hfit.
  pose proof (@length_test_rows R 1 frame k ltac:(lia) Hk) as Lte.
  assert (train_rows 1 frame k <> []) as Hne
    by (destruct (train_rows 1 frame k); simpl in *; [lia|discriminate]).
  rewrite naive_seasonal_forecast_fin by assumption.
  rewrite naive_forecast_fin by assumption.
  replace (length (test_rows 1 frame k)) with 1%nat by lia.
  rewrite length_map.
  replace (length (test_rows 1 frame k)) with 1%nat by lia.
  now rewrite (skipn_last 0%R Hne).
Qed.
